(** * boarscape: the third-person controller

    A shallow embedding of [src/game/thirdPersonController.js] and of the
    callbacks that [src/game/player.js] hands to it.  JavaScript numbers are
    idealised as real numbers: every arithmetic operation is the exact one,
    and there is no NaN, no infinity and no rounding. *)

From Stdlib Require Import Reals Lra Lia List String Bool ZArith ListSet.
Import ListNotations.
Open Scope R_scope.

(** ** JavaScript operators on numbers *)

(** [a < b] and [a <= b] as the booleans a JavaScript test yields. *)
Definition ltb (a b : R) : bool := if Rlt_dec a b then true else false.
Definition leb (a b : R) : bool := if Rle_dec a b then true else false.

(** [a === b] on numbers. *)
Definition eqb (a b : R) : bool := if Req_dec_T a b then true else false.

(** [a || b] on numbers: [0] is the only falsy real. *)
Definition orElse (a b : R) : R := if eqb a 0 then b else a.

(** [Math.sign]. *)
Definition sign (v : R) : R :=
  if ltb 0 v then 1 else if ltb v 0 then -1 else v.

(** [Math.atan2(y, x)], from the arc tangent of the library. *)
Definition atan2 (y x : R) : R :=
  if ltb 0 x then atan (y / x)
  else if ltb x 0 then (if leb 0 y then atan (y / x) + PI else atan (y / x) - PI)
  else if ltb 0 y then PI / 2
  else if ltb y 0 then - (PI / 2)
  else 0.

(** ** The parts of three.js the controller calls *)

Module MathUtils.
(** [MathUtils.lerp(x, y, t)] *)
Definition lerp (x y t : R) : R := (1 - t) * x + t * y.
End MathUtils.

Module Vector3.
Record t : Type := mk { x : R; y : R; z : R }.

Definition zero : t := mk 0 0 0.
Definition set_y (v : t) (b : R) : t := mk (x v) b (z v).
Definition add (a b : t) : t := mk (x a + x b) (y a + y b) (z a + z b).
Definition subVectors (a b : t) : t :=
  mk (x a - x b) (y a - y b) (z a - z b).
Definition multiplyScalar (v : t) (k : R) : t :=
  mk (x v * k) (y v * k) (z v * k).
Definition divideScalar (v : t) (k : R) : t := multiplyScalar v (1 / k).
Definition addScaledVector (v w : t) (k : R) : t :=
  mk (x v + x w * k) (y v + y w * k) (z v + z w * k).
Definition lengthSq (v : t) : R := x v * x v + y v * y v + z v * z v.
Definition length (v : t) : R := sqrt (lengthSq v).
Definition normalize (v : t) : t := divideScalar v (orElse (length v) 1).
Definition crossVectors (a b : t) : t :=
  mk (y a * z b - z a * y b) (z a * x b - x a * z b) (x a * y b - y a * x b).
Definition negate (v : t) : t := mk (- x v) (- y v) (- z v).
(** [v.lerp(w, alpha)] adds [(w - v) * alpha] on every axis. *)
Definition lerp (v w : t) (alpha : R) : t :=
  mk (x v + (x w - x v) * alpha) (y v + (y w - y v) * alpha)
     (z v + (z w - z v) * alpha).
End Vector3.

Module Quaternion.
Record t : Type := mk { x : R; y : R; z : R; w : R }.

Definition identity : t := mk 0 0 0 1.

Definition setFromAxisAngle (axis : Vector3.t) (angle : R) : t :=
  let halfAngle := angle / 2 in
  let s := sin halfAngle in
  mk (Vector3.x axis * s) (Vector3.y axis * s) (Vector3.z axis * s)
     (cos halfAngle).

Definition length (q : t) : R :=
  sqrt (x q * x q + y q * y q + z q * z q + w q * w q).

Definition normalize (q : t) : t :=
  let l := length q in
  if eqb l 0 then identity
  else mk (x q * (1 / l)) (y q * (1 / l)) (z q * (1 / l)) (w q * (1 / l)).

(** [qa.slerp(qb, t)] *)
Definition slerp (qa qb : t) (k : R) : t :=
  if eqb k 0 then qa
  else if eqb k 1 then qb
  else
    let c0 := w qa * w qb + x qa * x qb + y qa * y qb + z qa * z qb in
    let flip := ltb c0 0 in
    let qb' := if flip then mk (- x qb) (- y qb) (- z qb) (- w qb) else qb in
    let cosHalfTheta := if flip then - c0 else c0 in
    if leb 1 cosHalfTheta then qa
    else
      let sqrSinHalfTheta := 1 - cosHalfTheta * cosHalfTheta in
      if leb sqrSinHalfTheta (/ 2 ^ 52) then
        let s := 1 - k in
        normalize (mk (s * x qa + k * x qb') (s * y qa + k * y qb')
                      (s * z qa + k * z qb') (s * w qa + k * w qb'))
      else
        let sinHalfTheta := sqrt sqrSinHalfTheta in
        let halfTheta := atan2 sinHalfTheta cosHalfTheta in
        let ratioA := sin ((1 - k) * halfTheta) / sinHalfTheta in
        let ratioB := sin (k * halfTheta) / sinHalfTheta in
        mk (x qa * ratioA + x qb' * ratioB) (y qa * ratioA + y qb' * ratioB)
           (z qa * ratioA + z qb' * ratioB) (w qa * ratioA + w qb' * ratioB).
End Quaternion.

(** The target: an object with a mutable position and orientation. *)
Module Object3D.
Record t : Type := mk { position : Vector3.t; quaternion : Quaternion.t }.
End Object3D.

(** The camera, without a parent and with the default up vector.  Of its
    orientation only the local Z axis is kept, which is all that
    [getWorldDirection] reads. *)
Module Camera.
Record t : Type := mk { position : Vector3.t; zAxis : Vector3.t }.

Definition up : Vector3.t := Vector3.mk 0 1 0.

(** [camera.lookAt(p)]: the Z axis points from [p] to the camera. *)
Definition lookAt (c : t) (p : Vector3.t) : t :=
  let z0 := Vector3.subVectors (position c) p in
  let z1 :=
    if eqb (Vector3.lengthSq z0) 0
    then Vector3.mk (Vector3.x z0) (Vector3.y z0) 1 else z0 in
  let z2 := Vector3.normalize z1 in
  let z3 :=
    if eqb (Vector3.lengthSq (Vector3.crossVectors up z2)) 0
    then Vector3.normalize
           (Vector3.mk (Vector3.x z2) (Vector3.y z2) (Vector3.z z2 + 0.0001))
    else z2 in
  mk (position c) z3.

(** [camera.getWorldDirection(v)]: a camera looks down its negative Z. *)
Definition getWorldDirection (c : t) : Vector3.t :=
  Vector3.normalize (Vector3.negate (zAxis c)).
End Camera.

(** ** Numeric helpers of the file *)

(** [function damp(current, target, lambda, dt)] *)
Definition damp (current target lambda dt : R) : R :=
  (* Exponential damping (frame-rate independent) *)
  MathUtils.lerp current target (1 - exp (- lambda * dt)).

(** [function clamp(v, min, max)] *)
Definition clamp (v min max : R) : R := Rmax min (Rmin max v).

(** ** The environment the controller reads *)

Module Collider.
Record t : Type := mk { position : Vector3.t; radius : R }.
End Collider.

(** A field that is missing or [null] is [None]. *)
Module Environment.
Record t : Type := mk {
  boundsHalfSize : option R;
  groundY : option R;
  treeColliders : option (list Collider.t)
}.
End Environment.

(** [a ?? b] *)
Definition nullish {A : Type} (a : option A) (b : A) : A :=
  match a with Some v => v | None => b end.

(** [environment?.field] *)
Definition optChain {A : Type} (e : option Environment.t)
    (field : Environment.t -> option A) : option A :=
  match e with Some env => field env | None => None end.

(** ** Callbacks *)

(** What the callbacks of [loadPlayer] do: they start or fade out a clip. *)
Inductive Effect : Type :=
| PlayAnimation (name : string) (loop : bool)
| StopAnimation (name : string).

(** A callback is known by the effects a call to it has. *)
Definition Callback (A : Type) : Type := A -> list Effect.

(** ** Controller state: the fields of [this] *)

(** The camera and the target are the objects the controller holds and
    mutates.  [domElement], its class list and the listeners are left out:
    the handlers below are what the listeners call. *)

Record Controller : Type := mkController {
  camera : Camera.t;
  target : option Object3D.t;
  environment : option Environment.t;
  onJump : option (Callback unit);
  targetHeight : R;
  playerRadius : R;
  walkSpeed : R;
  runSpeed : R;
  jumpSpeed : R;
  gravity : R;
  rotationSpeed : R;
  distance : R;
  minDistance : R;
  maxDistance : R;
  yaw : R;
  phi : R;
  minPhi : R;
  maxPhi : R;
  cameraSmooth : R;
  velocity : Vector3.t;
  onGround : bool;
  _keysDown : set string;
  _jumpRequested : bool;
  _dragging : bool;
  _pointerId : option Z;
  _lastPointerX : R;
  _lastPointerY : R;
  _up : Vector3.t;
  _camForward : Vector3.t;
  _camRight : Vector3.t;
  _moveDir : Vector3.t;
  _desiredVel : Vector3.t;
  _targetPos : Vector3.t;
  _desiredCameraPos : Vector3.t;
  _cameraOffset : Vector3.t;
  _desiredFacing : Quaternion.t
}.

(** Assignment to one field, as the handlers do it. *)
Definition set_keysDown (v : set string) (s : Controller) : Controller :=
  {| camera := camera s; target := target s; environment := environment s;
     onJump := onJump s; targetHeight := targetHeight s;
     playerRadius := playerRadius s; walkSpeed := walkSpeed s;
     runSpeed := runSpeed s; jumpSpeed := jumpSpeed s; gravity := gravity s;
     rotationSpeed := rotationSpeed s; distance := distance s;
     minDistance := minDistance s; maxDistance := maxDistance s;
     yaw := yaw s; phi := phi s; minPhi := minPhi s; maxPhi := maxPhi s;
     cameraSmooth := cameraSmooth s; velocity := velocity s;
     onGround := onGround s; _keysDown := v;
     _jumpRequested := _jumpRequested s; _dragging := _dragging s;
     _pointerId := _pointerId s; _lastPointerX := _lastPointerX s;
     _lastPointerY := _lastPointerY s; _up := _up s;
     _camForward := _camForward s; _camRight := _camRight s;
     _moveDir := _moveDir s; _desiredVel := _desiredVel s;
     _targetPos := _targetPos s; _desiredCameraPos := _desiredCameraPos s;
     _cameraOffset := _cameraOffset s; _desiredFacing := _desiredFacing s |}.

Definition set_jumpRequested (v : bool) (s : Controller) : Controller :=
  {| camera := camera s; target := target s; environment := environment s;
     onJump := onJump s; targetHeight := targetHeight s;
     playerRadius := playerRadius s; walkSpeed := walkSpeed s;
     runSpeed := runSpeed s; jumpSpeed := jumpSpeed s; gravity := gravity s;
     rotationSpeed := rotationSpeed s; distance := distance s;
     minDistance := minDistance s; maxDistance := maxDistance s;
     yaw := yaw s; phi := phi s; minPhi := minPhi s; maxPhi := maxPhi s;
     cameraSmooth := cameraSmooth s; velocity := velocity s;
     onGround := onGround s; _keysDown := _keysDown s; _jumpRequested := v;
     _dragging := _dragging s; _pointerId := _pointerId s;
     _lastPointerX := _lastPointerX s; _lastPointerY := _lastPointerY s;
     _up := _up s; _camForward := _camForward s; _camRight := _camRight s;
     _moveDir := _moveDir s; _desiredVel := _desiredVel s;
     _targetPos := _targetPos s; _desiredCameraPos := _desiredCameraPos s;
     _cameraOffset := _cameraOffset s; _desiredFacing := _desiredFacing s |}.

Definition set_dragging (v : bool) (s : Controller) : Controller :=
  {| camera := camera s; target := target s; environment := environment s;
     onJump := onJump s; targetHeight := targetHeight s;
     playerRadius := playerRadius s; walkSpeed := walkSpeed s;
     runSpeed := runSpeed s; jumpSpeed := jumpSpeed s; gravity := gravity s;
     rotationSpeed := rotationSpeed s; distance := distance s;
     minDistance := minDistance s; maxDistance := maxDistance s;
     yaw := yaw s; phi := phi s; minPhi := minPhi s; maxPhi := maxPhi s;
     cameraSmooth := cameraSmooth s; velocity := velocity s;
     onGround := onGround s; _keysDown := _keysDown s;
     _jumpRequested := _jumpRequested s; _dragging := v;
     _pointerId := _pointerId s; _lastPointerX := _lastPointerX s;
     _lastPointerY := _lastPointerY s; _up := _up s;
     _camForward := _camForward s; _camRight := _camRight s;
     _moveDir := _moveDir s; _desiredVel := _desiredVel s;
     _targetPos := _targetPos s; _desiredCameraPos := _desiredCameraPos s;
     _cameraOffset := _cameraOffset s; _desiredFacing := _desiredFacing s |}.

Definition set_pointerId (v : option Z) (s : Controller) : Controller :=
  {| camera := camera s; target := target s; environment := environment s;
     onJump := onJump s; targetHeight := targetHeight s;
     playerRadius := playerRadius s; walkSpeed := walkSpeed s;
     runSpeed := runSpeed s; jumpSpeed := jumpSpeed s; gravity := gravity s;
     rotationSpeed := rotationSpeed s; distance := distance s;
     minDistance := minDistance s; maxDistance := maxDistance s;
     yaw := yaw s; phi := phi s; minPhi := minPhi s; maxPhi := maxPhi s;
     cameraSmooth := cameraSmooth s; velocity := velocity s;
     onGround := onGround s; _keysDown := _keysDown s;
     _jumpRequested := _jumpRequested s; _dragging := _dragging s;
     _pointerId := v; _lastPointerX := _lastPointerX s;
     _lastPointerY := _lastPointerY s; _up := _up s;
     _camForward := _camForward s; _camRight := _camRight s;
     _moveDir := _moveDir s; _desiredVel := _desiredVel s;
     _targetPos := _targetPos s; _desiredCameraPos := _desiredCameraPos s;
     _cameraOffset := _cameraOffset s; _desiredFacing := _desiredFacing s |}.

Definition set_lastPointerX (v : R) (s : Controller) : Controller :=
  {| camera := camera s; target := target s; environment := environment s;
     onJump := onJump s; targetHeight := targetHeight s;
     playerRadius := playerRadius s; walkSpeed := walkSpeed s;
     runSpeed := runSpeed s; jumpSpeed := jumpSpeed s; gravity := gravity s;
     rotationSpeed := rotationSpeed s; distance := distance s;
     minDistance := minDistance s; maxDistance := maxDistance s;
     yaw := yaw s; phi := phi s; minPhi := minPhi s; maxPhi := maxPhi s;
     cameraSmooth := cameraSmooth s; velocity := velocity s;
     onGround := onGround s; _keysDown := _keysDown s;
     _jumpRequested := _jumpRequested s; _dragging := _dragging s;
     _pointerId := _pointerId s; _lastPointerX := v;
     _lastPointerY := _lastPointerY s; _up := _up s;
     _camForward := _camForward s; _camRight := _camRight s;
     _moveDir := _moveDir s; _desiredVel := _desiredVel s;
     _targetPos := _targetPos s; _desiredCameraPos := _desiredCameraPos s;
     _cameraOffset := _cameraOffset s; _desiredFacing := _desiredFacing s |}.

Definition set_lastPointerY (v : R) (s : Controller) : Controller :=
  {| camera := camera s; target := target s; environment := environment s;
     onJump := onJump s; targetHeight := targetHeight s;
     playerRadius := playerRadius s; walkSpeed := walkSpeed s;
     runSpeed := runSpeed s; jumpSpeed := jumpSpeed s; gravity := gravity s;
     rotationSpeed := rotationSpeed s; distance := distance s;
     minDistance := minDistance s; maxDistance := maxDistance s;
     yaw := yaw s; phi := phi s; minPhi := minPhi s; maxPhi := maxPhi s;
     cameraSmooth := cameraSmooth s; velocity := velocity s;
     onGround := onGround s; _keysDown := _keysDown s;
     _jumpRequested := _jumpRequested s; _dragging := _dragging s;
     _pointerId := _pointerId s; _lastPointerX := _lastPointerX s;
     _lastPointerY := v; _up := _up s; _camForward := _camForward s;
     _camRight := _camRight s; _moveDir := _moveDir s;
     _desiredVel := _desiredVel s; _targetPos := _targetPos s;
     _desiredCameraPos := _desiredCameraPos s;
     _cameraOffset := _cameraOffset s; _desiredFacing := _desiredFacing s |}.

Definition set_yaw (v : R) (s : Controller) : Controller :=
  {| camera := camera s; target := target s; environment := environment s;
     onJump := onJump s; targetHeight := targetHeight s;
     playerRadius := playerRadius s; walkSpeed := walkSpeed s;
     runSpeed := runSpeed s; jumpSpeed := jumpSpeed s; gravity := gravity s;
     rotationSpeed := rotationSpeed s; distance := distance s;
     minDistance := minDistance s; maxDistance := maxDistance s; yaw := v;
     phi := phi s; minPhi := minPhi s; maxPhi := maxPhi s;
     cameraSmooth := cameraSmooth s; velocity := velocity s;
     onGround := onGround s; _keysDown := _keysDown s;
     _jumpRequested := _jumpRequested s; _dragging := _dragging s;
     _pointerId := _pointerId s; _lastPointerX := _lastPointerX s;
     _lastPointerY := _lastPointerY s; _up := _up s;
     _camForward := _camForward s; _camRight := _camRight s;
     _moveDir := _moveDir s; _desiredVel := _desiredVel s;
     _targetPos := _targetPos s; _desiredCameraPos := _desiredCameraPos s;
     _cameraOffset := _cameraOffset s; _desiredFacing := _desiredFacing s |}.

Definition set_phi (v : R) (s : Controller) : Controller :=
  {| camera := camera s; target := target s; environment := environment s;
     onJump := onJump s; targetHeight := targetHeight s;
     playerRadius := playerRadius s; walkSpeed := walkSpeed s;
     runSpeed := runSpeed s; jumpSpeed := jumpSpeed s; gravity := gravity s;
     rotationSpeed := rotationSpeed s; distance := distance s;
     minDistance := minDistance s; maxDistance := maxDistance s;
     yaw := yaw s; phi := v; minPhi := minPhi s; maxPhi := maxPhi s;
     cameraSmooth := cameraSmooth s; velocity := velocity s;
     onGround := onGround s; _keysDown := _keysDown s;
     _jumpRequested := _jumpRequested s; _dragging := _dragging s;
     _pointerId := _pointerId s; _lastPointerX := _lastPointerX s;
     _lastPointerY := _lastPointerY s; _up := _up s;
     _camForward := _camForward s; _camRight := _camRight s;
     _moveDir := _moveDir s; _desiredVel := _desiredVel s;
     _targetPos := _targetPos s; _desiredCameraPos := _desiredCameraPos s;
     _cameraOffset := _cameraOffset s; _desiredFacing := _desiredFacing s |}.

Definition set_distance (v : R) (s : Controller) : Controller :=
  {| camera := camera s; target := target s; environment := environment s;
     onJump := onJump s; targetHeight := targetHeight s;
     playerRadius := playerRadius s; walkSpeed := walkSpeed s;
     runSpeed := runSpeed s; jumpSpeed := jumpSpeed s; gravity := gravity s;
     rotationSpeed := rotationSpeed s; distance := v;
     minDistance := minDistance s; maxDistance := maxDistance s;
     yaw := yaw s; phi := phi s; minPhi := minPhi s; maxPhi := maxPhi s;
     cameraSmooth := cameraSmooth s; velocity := velocity s;
     onGround := onGround s; _keysDown := _keysDown s;
     _jumpRequested := _jumpRequested s; _dragging := _dragging s;
     _pointerId := _pointerId s; _lastPointerX := _lastPointerX s;
     _lastPointerY := _lastPointerY s; _up := _up s;
     _camForward := _camForward s; _camRight := _camRight s;
     _moveDir := _moveDir s; _desiredVel := _desiredVel s;
     _targetPos := _targetPos s; _desiredCameraPos := _desiredCameraPos s;
     _cameraOffset := _cameraOffset s; _desiredFacing := _desiredFacing s |}.

(** ** Construction *)

(** The object handed to the constructor.  [loadPlayer] also passes an
    [onMovementChange] property. *)
Record Options : Type := mkOptions {
  opt_camera : Camera.t;
  opt_target : option Object3D.t;
  opt_environment : option Environment.t;
  opt_targetHeight : option R;
  opt_playerRadius : option R;
  opt_onJump : option (Callback unit);
  opt_onMovementChange : option (Callback bool)
}.

(** [constructor({ camera, target, domElement, environment, targetHeight =
    1.25, playerRadius = 0.55, onJump = null })] *)
Definition constructor (o : Options) : Controller :=
  {| camera := opt_camera o;
     target := opt_target o;
     environment := opt_environment o;
     onJump := opt_onJump o;
     (* Player params *)
     targetHeight := nullish (opt_targetHeight o) 1.25;
     playerRadius := nullish (opt_playerRadius o) 0.55;
     walkSpeed := 4.6;
     runSpeed := 7.4;
     jumpSpeed := 7.2;
     gravity := 18.5;
     rotationSpeed := 14;
     (* Camera params *)
     distance := 8.5;
     minDistance := 3.6;
     maxDistance := 18.0;
     yaw := 0;
     phi := 1.12;
     minPhi := 0.55;
     maxPhi := 1.45;
     cameraSmooth := 14;
     (* State *)
     velocity := Vector3.mk 0 0 0;
     onGround := true;
     _keysDown := empty_set string;
     _jumpRequested := false;
     _dragging := false;
     _pointerId := None;
     _lastPointerX := 0;
     _lastPointerY := 0;
     (* Temps *)
     _up := Vector3.mk 0 1 0;
     _camForward := Vector3.zero;
     _camRight := Vector3.zero;
     _moveDir := Vector3.zero;
     _desiredVel := Vector3.zero;
     _targetPos := Vector3.zero;
     _desiredCameraPos := Vector3.zero;
     _cameraOffset := Vector3.zero;
     _desiredFacing := Quaternion.identity |}.

(** ** Input handlers *)

Record KeyboardEvent : Type := mkKeyboardEvent { code : string; repeat : bool }.

Record PointerEvent : Type := mkPointerEvent {
  button : Z; pointerId : Z; clientX : R; clientY : R
}.

Record WheelEvent : Type := mkWheelEvent { deltaY : R }.

(** [Set.prototype.has] *)
Definition has (k : string) (keys : set string) : bool :=
  set_mem string_dec k keys.

Definition _onKeyDown (e : KeyboardEvent) (s : Controller) : Controller :=
  let s1 := set_keysDown (set_add string_dec (code e) (_keysDown s)) s in
  if String.eqb (code e) "Space" && negb (repeat e)
  then set_jumpRequested true s1
  else s1.

Definition _onKeyUp (e : KeyboardEvent) (s : Controller) : Controller :=
  set_keysDown (set_remove string_dec (code e) (_keysDown s)) s.

Definition _onPointerDown (e : PointerEvent) (s : Controller) : Controller :=
  if negb (Z.eqb (button e) 0) then s
  else
    set_lastPointerY (clientY e)
      (set_lastPointerX (clientX e)
         (set_pointerId (Some (pointerId e)) (set_dragging true s))).

(** [this._pointerId != null && e.pointerId !== this._pointerId] *)
Definition otherPointer (e : PointerEvent) (s : Controller) : bool :=
  match _pointerId s with
  | Some p => negb (Z.eqb (pointerId e) p)
  | None => false
  end.

Definition rotateSpeed : R := 0.0042.

Definition _onPointerMove (e : PointerEvent) (s : Controller) : Controller :=
  if negb (_dragging s) then s
  else if otherPointer e s then s
  else
    let dx := clientX e - _lastPointerX s in
    let dy := clientY e - _lastPointerY s in
    let s1 := set_lastPointerY (clientY e) (set_lastPointerX (clientX e) s) in
    let s2 := set_yaw (yaw s1 - dx * rotateSpeed) s1 in
    set_phi (clamp (phi s2 + dy * rotateSpeed) (minPhi s2) (maxPhi s2)) s2.

Definition _onPointerUp (e : PointerEvent) (s : Controller) : Controller :=
  if otherPointer e s then s
  else set_pointerId None (set_dragging false s).

Definition _onWheel (e : WheelEvent) (s : Controller) : Controller :=
  let delta := sign (deltaY e) in
  set_distance
    (clamp (distance s + delta * 0.85) (minDistance s) (maxDistance s)) s.

(** ** The per-frame update *)

(** One turn of the tree-collision loop: the body of the [for] over the
    colliders, on the target's position and the controller's velocity. *)
Definition collide (playerRadius : R) (pv : Vector3.t * Vector3.t)
    (c : Collider.t) : Vector3.t * Vector3.t :=
  let '(p, v) := pv in
  let dx := Vector3.x p - Vector3.x (Collider.position c) in
  let dz := Vector3.z p - Vector3.z (Collider.position c) in
  let r := playerRadius + Collider.radius c in
  let d2 := dx * dx + dz * dz in
  if ltb d2 (r * r) then
    let d := orElse (sqrt d2) 0.0001 in
    let nx := dx / d in
    let nz := dz / d in
    let push := r - d in
    let p' :=
      Vector3.mk (Vector3.x p + nx * push) (Vector3.y p)
                 (Vector3.z p + nz * push) in
    (* Cancel velocity into the collider normal *)
    let vn := Vector3.x v * nx + Vector3.z v * nz in
    if ltb vn 0
    then (p', Vector3.mk (Vector3.x v - vn * nx) (Vector3.y v)
                         (Vector3.z v - vn * nz))
    else (p', v)
  else (p, v).

Definition treeCollisions (playerRadius : R) (colliders : list Collider.t)
    (pv : Vector3.t * Vector3.t) : Vector3.t * Vector3.t :=
  fold_left (collide playerRadius) colliders pv.

(** The horizontal camera axes of lines 172-179. *)
Definition camForwardOf (cam : Camera.t) : Vector3.t :=
  let f := Vector3.set_y (Camera.getWorldDirection cam) 0 in
  if ltb (Vector3.lengthSq f) 1e-6
  then Vector3.mk 0 0 (-1)
  else Vector3.normalize f.

Definition camRightOf (camForward up : Vector3.t) : Vector3.t :=
  Vector3.normalize (Vector3.crossVectors camForward up).

Definition xInputOf (keys : set string) : R :=
  (if has "KeyD" keys then 1 else 0) + (if has "KeyA" keys then -1 else 0).

Definition zInputOf (keys : set string) : R :=
  (if has "KeyW" keys then 1 else 0) + (if has "KeyS" keys then -1 else 0).

(** [_moveDir] before it is normalised. *)
Definition rawMoveDir (camForward camRight : Vector3.t) (xInput zInput : R)
    : Vector3.t :=
  let m0 := Vector3.mk 0 0 0 in
  let m1 :=
    if negb (eqb xInput 0)
    then Vector3.addScaledVector m0 camRight xInput else m0 in
  if negb (eqb zInput 0)
  then Vector3.addScaledVector m1 camForward zInput else m1.

Definition isRunningOf (keys : set string) : bool :=
  has "ShiftLeft" keys || has "ShiftRight" keys.

Definition margin : R := 2.0.

(** [update(dt)]: the new state and the effects of the callbacks called. *)
Definition update (dt : R) (s : Controller) : Controller * list Effect :=
  match target s with
  | None => (s, [])
  | Some tgt =>
    (* Target point for camera *)
    let p0 := Object3D.position tgt in
    let targetPos :=
      Vector3.set_y p0 (Vector3.y p0 + targetHeight s) in
    (* Desired camera position from spherical coords *)
    let sinPhi := sin (phi s) in
    let cosPhi := cos (phi s) in
    let sinYaw := sin (yaw s) in
    let cosYaw := cos (yaw s) in
    let cameraOffset :=
      Vector3.mk (sinPhi * sinYaw * distance s) (cosPhi * distance s)
                 (sinPhi * cosYaw * distance s) in
    let desiredCameraPos := Vector3.add targetPos cameraOffset in
    (* Smooth camera *)
    let t := 1 - exp (- cameraSmooth s * dt) in
    let cam1 :=
      Camera.mk (Vector3.lerp (Camera.position (camera s)) desiredCameraPos t)
                (Camera.zAxis (camera s)) in
    let cam2 := Camera.lookAt cam1 targetPos in
    (* Movement input in camera space (horizontal only) *)
    let camForward := camForwardOf cam2 in
    let camRight := camRightOf camForward (_up s) in
    let xInput := xInputOf (_keysDown s) in
    let zInput := zInputOf (_keysDown s) in
    let moveDir0 := rawMoveDir camForward camRight xInput zInput in
    let hasMove := ltb 1e-6 (Vector3.lengthSq moveDir0) in
    let moveDir := if hasMove then Vector3.normalize moveDir0 else moveDir0 in
    let isRunning := isRunningOf (_keysDown s) in
    let maxSpeed := if isRunning then runSpeed s else walkSpeed s in
    let desiredVel :=
      Vector3.multiplyScalar moveDir (if hasMove then maxSpeed else 0) in
    let accel := if hasMove then 18 else 14 in
    let vx := damp (Vector3.x (velocity s)) (Vector3.x desiredVel) accel dt in
    let vz := damp (Vector3.z (velocity s)) (Vector3.z desiredVel) accel dt in
    (* Jump/gravity *)
    let jump := onGround s && _jumpRequested s in
    let vy1 := if jump then jumpSpeed s else Vector3.y (velocity s) in
    let onGround1 := if jump then false else onGround s in
    let effects :=
      if jump
      then match onJump s with Some f => f tt | None => [] end
      else [] in
    let vy2 := if negb onGround1 then vy1 - gravity s * dt else vy1 in
    (* Integrate *)
    let px := Vector3.x p0 + vx * dt in
    let py := Vector3.y p0 + vy2 * dt in
    let pz := Vector3.z p0 + vz * dt in
    (* Ground collision *)
    let groundY := nullish (optChain (environment s) Environment.groundY) 0 in
    let landed := leb py groundY in
    let py1 := if landed then groundY else py in
    let vy3 := if landed then 0 else vy2 in
    let onGround2 := if landed then true else onGround1 in
    (* World bounds *)
    let half :=
      nullish (optChain (environment s) Environment.boundsHalfSize) 260 in
    let px1 := clamp px (- half + margin) (half - margin) in
    let pz1 := clamp pz (- half + margin) (half - margin) in
    (* Tree collisions (2D circles) *)
    let colliders :=
      nullish (optChain (environment s) Environment.treeColliders) [] in
    let pv :=
      treeCollisions (playerRadius s) colliders
        (Vector3.mk px1 py1 pz1, Vector3.mk vx vy3 vz) in
    (* Face movement direction *)
    let facingYaw := atan2 (Vector3.x moveDir) (Vector3.z moveDir) in
    let desiredFacing :=
      if hasMove then Quaternion.setFromAxisAngle (_up s) facingYaw
      else _desiredFacing s in
    let rt := 1 - exp (- rotationSpeed s * dt) in
    let q :=
      if hasMove
      then Quaternion.slerp (Object3D.quaternion tgt) desiredFacing rt
      else Object3D.quaternion tgt in
    ({| camera := cam2;
        target := Some (Object3D.mk (fst pv) q);
        environment := environment s;
        onJump := onJump s;
        targetHeight := targetHeight s;
        playerRadius := playerRadius s;
        walkSpeed := walkSpeed s;
        runSpeed := runSpeed s;
        jumpSpeed := jumpSpeed s;
        gravity := gravity s;
        rotationSpeed := rotationSpeed s;
        distance := distance s;
        minDistance := minDistance s;
        maxDistance := maxDistance s;
        yaw := yaw s;
        phi := phi s;
        minPhi := minPhi s;
        maxPhi := maxPhi s;
        cameraSmooth := cameraSmooth s;
        velocity := snd pv;
        onGround := onGround2;
        _keysDown := _keysDown s;
        _jumpRequested := false;
        _dragging := _dragging s;
        _pointerId := _pointerId s;
        _lastPointerX := _lastPointerX s;
        _lastPointerY := _lastPointerY s;
        _up := _up s;
        _camForward := camForward;
        _camRight := camRight;
        _moveDir := moveDir;
        _desiredVel := desiredVel;
        _targetPos := targetPos;
        _desiredCameraPos := desiredCameraPos;
        _cameraOffset := cameraOffset;
        _desiredFacing := desiredFacing |}, effects)
  end.

(** ** Runs of the controller *)

(** What can happen to a controller after its construction: one of the
    events it listens to, or a frame. *)
Inductive Input : Type :=
| KeyDown (e : KeyboardEvent)
| KeyUp (e : KeyboardEvent)
| PointerDown (e : PointerEvent)
| PointerMove (e : PointerEvent)
| PointerUp (e : PointerEvent)
| PointerCancel (e : PointerEvent)
| Wheel (e : WheelEvent)
| Frame (dt : R).

Definition step (s : Controller) (i : Input) : Controller * list Effect :=
  match i with
  | KeyDown e => (_onKeyDown e s, [])
  | KeyUp e => (_onKeyUp e s, [])
  | PointerDown e => (_onPointerDown e s, [])
  | PointerMove e => (_onPointerMove e s, [])
  | PointerUp e => (_onPointerUp e s, [])
  | PointerCancel e => (_onPointerUp e s, [])
  | Wheel e => (_onWheel e s, [])
  | Frame dt => update dt s
  end.

(** The state after a list of inputs, and the effects in order. *)
Fixpoint run (s : Controller) (inputs : list Input)
    : Controller * list Effect :=
  match inputs with
  | [] => (s, [])
  | i :: rest =>
      let '(s1, out1) := step s i in
      let '(s2, out2) := run s1 rest in
      (s2, out1 ++ out2)
  end.

Definition state_after (s : Controller) (inputs : list Input) : Controller :=
  fst (run s inputs).

(** The states a controller built from [o] can be in. *)
Definition Reachable (o : Options) (s : Controller) : Prop :=
  exists inputs, s = state_after (constructor o) inputs.

(** ** The callbacks of [loadPlayer] *)

Definition player_onJump : Callback unit :=
  fun _ => [PlayAnimation "jump" false].

Definition player_onMovementChange : Callback bool :=
  fun isMoving =>
    if isMoving then [PlayAnimation "walk" true] else [StopAnimation "walk"].

(** Move intent: some movement axis is not zero. *)
Definition moveIntent (keys : set string) : bool :=
  negb (eqb (xInputOf keys) 0) || negb (eqb (zInputOf keys) 0).

(** ** Notions the properties are stated with *)

(** The environment values a frame reads, with their defaults. *)
Definition groundYOf (s : Controller) : R :=
  nullish (optChain (environment s) Environment.groundY) 0.

Definition halfOf (s : Controller) : R :=
  nullish (optChain (environment s) Environment.boundsHalfSize) 260.

Definition collidersOf (s : Controller) : list Collider.t :=
  nullish (optChain (environment s) Environment.treeColliders) [].

(** The test of the collision loop: the player's circle at [p] overlaps the
    collider's. *)
Definition overlaps (playerRadius : R) (p : Vector3.t) (c : Collider.t)
    : bool :=
  let dx := Vector3.x p - Vector3.x (Collider.position c) in
  let dz := Vector3.z p - Vector3.z (Collider.position c) in
  let r := playerRadius + Collider.radius c in
  ltb (dx * dx + dz * dz) (r * r).

(** Horizontal distance between a position and the centre of a collider. *)
Definition horizontalDistance (p : Vector3.t) (c : Collider.t) : R :=
  let dx := Vector3.x p - Vector3.x (Collider.position c) in
  let dz := Vector3.z p - Vector3.z (Collider.position c) in
  sqrt (dx * dx + dz * dz).

(** The fields no handler and no frame assigns. *)
Definition same_config (a b : Controller) : Prop :=
  environment b = environment a /\ onJump b = onJump a /\
  targetHeight b = targetHeight a /\ playerRadius b = playerRadius a /\
  walkSpeed b = walkSpeed a /\ runSpeed b = runSpeed a /\
  jumpSpeed b = jumpSpeed a /\ gravity b = gravity a /\
  rotationSpeed b = rotationSpeed a /\
  minDistance b = minDistance a /\ maxDistance b = maxDistance a /\
  minPhi b = minPhi a /\ maxPhi b = maxPhi a /\
  cameraSmooth b = cameraSmooth a /\ _up b = _up a.

(** The height of the target, when there is one. *)
Definition heightOf (s : Controller) : option R :=
  match target s with
  | Some tgt => Some (Vector3.y (Object3D.position tgt))
  | None => None
  end.

(** [onGround] tells whether the target is at or below ground height. *)
Definition onGround_agrees (s : Controller) : Prop :=
  forall h, heightOf s = Some h ->
    (onGround s = true <-> h <= groundYOf s).

(** What the vertical part of a frame keeps true. *)
Definition grounded_inv (s : Controller) : Prop :=
  forall h, heightOf s = Some h ->
    (onGround s = true -> h <= groundYOf s /\ Vector3.y (velocity s) = 0) /\
    (onGround s = false -> groundYOf s < h).

(** A frame applies the jump impulse: the test of line 200, in a frame that
    gets past line 148. *)
Definition appliesJump (s : Controller) : bool :=
  match target s with
  | Some _ => onGround s && _jumpRequested s
  | None => false
  end.

(** The number of frames of a run that apply the jump impulse. *)
Fixpoint jumpCount (s : Controller) (inputs : list Input) : nat :=
  match inputs with
  | [] => O
  | i :: rest =>
      ((match i with
        | Frame _ => if appliesJump s then 1 else 0
        | _ => 0
        end) + jumpCount (fst (step s i)) rest)%nat
  end.

(** A press of the jump key that is not an auto-repeat. *)
Definition isJumpPress (i : Input) : bool :=
  match i with
  | KeyDown e => String.eqb (code e) "Space" && negb (repeat e)
  | _ => false
  end.

Definition isFrame (i : Input) : bool :=
  match i with Frame _ => true | _ => false end.

(** The orbit parameters are within their bounds. *)
Definition orbit_ok (s : Controller) : Prop :=
  minPhi s <= phi s <= maxPhi s /\
  minDistance s <= distance s <= maxDistance s.

(** The bounds of the constructor are in order. *)
Definition bounds_in_order (s : Controller) : Prop :=
  minPhi s <= maxPhi s /\ minDistance s <= maxDistance s.


(** The formula the specification gives for [damp]. *)
Definition damp_spec (current target lambda dt : R) : R :=
  current + (target - current) * (1 - exp (- lambda * dt)).

(** [n] successive frames of damping with the same [dt]. *)
Fixpoint damp_iter (n : nat) (current target lambda dt : R) : R :=
  match n with
  | O => current
  | S k => damp (damp_iter k current target lambda dt) target lambda dt
  end.

(** ** Sample scenes *)

(** A state in mid-flight or at rest: [s] with another velocity and ground
    flag, as some earlier frames may have left them. *)
Definition in_motion (v : Vector3.t) (grounded : bool) (s : Controller)
    : Controller :=
  {| camera := camera s; target := target s; environment := environment s;
     onJump := onJump s; targetHeight := targetHeight s;
     playerRadius := playerRadius s; walkSpeed := walkSpeed s;
     runSpeed := runSpeed s; jumpSpeed := jumpSpeed s; gravity := gravity s;
     rotationSpeed := rotationSpeed s; distance := distance s;
     minDistance := minDistance s; maxDistance := maxDistance s;
     yaw := yaw s; phi := phi s; minPhi := minPhi s; maxPhi := maxPhi s;
     cameraSmooth := cameraSmooth s; velocity := v; onGround := grounded;
     _keysDown := _keysDown s; _jumpRequested := _jumpRequested s;
     _dragging := _dragging s; _pointerId := _pointerId s;
     _lastPointerX := _lastPointerX s; _lastPointerY := _lastPointerY s;
     _up := _up s; _camForward := _camForward s; _camRight := _camRight s;
     _moveDir := _moveDir s; _desiredVel := _desiredVel s;
     _targetPos := _targetPos s; _desiredCameraPos := _desiredCameraPos s;
     _cameraOffset := _cameraOffset s; _desiredFacing := _desiredFacing s |}.

(** The camera of [main.js], at (0, 6, 10) and not yet turned. *)
Definition main_camera : Camera.t :=
  Camera.mk (Vector3.mk 0 6 10) (Vector3.mk 0 0 1).

(** What [createEnvironment] returns for the default field, with the given
    trees. *)
Definition field_environment (trees : list Collider.t) : Environment.t :=
  Environment.mk (Some 260) (Some 0) (Some trees).

(** The options [loadPlayer] builds the controller from, for a player root
    at [p]. *)
Definition loadPlayer_options (p : Vector3.t) (env : Environment.t)
    : Options :=
  {| opt_camera := main_camera;
     opt_target := Some (Object3D.mk p Quaternion.identity);
     opt_environment := Some env;
     opt_targetHeight := Some 1.25;
     opt_playerRadius := Some 0.55;
     opt_onJump := Some player_onJump;
     opt_onMovementChange := Some player_onMovementChange |}.


(** A tree standing one unit inside the east edge of a field of half size
    10, and the player root at that edge. *)
Definition edge_tree : Collider.t := Collider.mk (Vector3.mk 7 0 0) 1.


(** A tree standing where the player root is. *)
Definition centre_tree : Collider.t := Collider.mk (Vector3.mk 0 0 0) 1.

Definition centre_options : Options :=
  loadPlayer_options (Vector3.mk 0 0 0) (field_environment [centre_tree]).

(** ** Notions for the input handlers *)

(** Whether key [k] is held after a list of inputs, given whether it was
    held before: its last key event decides. *)
Definition heldAfter (k : string) (inputs : list Input) (before : bool)
    : bool :=
  fold_left
    (fun held i =>
       match i with
       | KeyDown e => if String.eqb (code e) k then true else held
       | KeyUp e => if String.eqb (code e) k then false else held
       | _ => held
       end)
    inputs before.

(** Pointer inputs that do not start a drag: moves, releases, and presses
    of a button other than the primary one. *)
Definition isIdlePointerInput (i : Input) : bool :=
  match i with
  | PointerMove _ | PointerUp _ | PointerCancel _ => true
  | PointerDown e => negb (Z.eqb (button e) 0)
  | _ => false
  end.

(** The drag state is consistent: a pointer is recorded exactly while
    dragging. *)
Definition drag_consistent (s : Controller) : Prop :=
  _dragging s = false <-> _pointerId s = None.

(** ** Notions for the physics of the character *)

(** The square of the horizontal speed. *)
Definition speedSq (v : Vector3.t) : R :=
  Vector3.x v * Vector3.x v + Vector3.z v * Vector3.z v.

(** No frame of the list runs time backwards. *)
Definition framesForward (inputs : list Input) : bool :=
  forallb (fun i => match i with Frame dt => leb 0 dt | _ => true end) inputs.

(** What the vertical part of a frame keeps true of the energy of a jump:
    on the ground the character rests, and in the air its height over the
    ground and its vertical speed are what one jump impulse can give. *)
Definition jump_energy_inv (s : Controller) : Prop :=
  forall h, heightOf s = Some h ->
    (onGround s = true -> h <= groundYOf s /\ Vector3.y (velocity s) = 0) /\
    (onGround s = false ->
     groundYOf s < h /\
     2 * gravity s * (h - groundYOf s)
     + Vector3.y (velocity s) * Vector3.y (velocity s)
     <= jumpSpeed s * jumpSpeed s).


(** ** The environment: [createEnvironment] *)

(** [Math.random]: the [n]-th call since the page was loaded returns
    [rand n]. *)
Definition Random : Type := nat -> R.

Module Cloud.
(** An entry of [clouds]: the position of the sprite and the drift speed. *)
Record t : Type := mk { position : Vector3.t; speed : R }.
End Cloud.

Definition spawnAvoidRadius : R := 16.

(** The candidate position the inner loop draws with calls [k] and [k+1]. *)
Definition treeCandidate (half : R) (rand : Random) (k : nat) : R * R :=
  ((rand k * 2 - 1) * (half - 6), (rand (S k) * 2 - 1) * (half - 6)).

(** [for (let tries = 0; tries < 50; tries++) { x = ...; z = ...; if (x * x
    + z * z > spawnAvoidRadius * spawnAvoidRadius) break; }] with [tries]
    turns left: the position kept and the next call of [Math.random]. *)
Fixpoint spawnTries (tries : nat) (half : R) (rand : Random) (k : nat)
    (xz : R * R) : R * R * nat :=
  match tries with
  | O => (xz, k)
  | S more =>
      let c := treeCandidate half rand k in
      if ltb (spawnAvoidRadius * spawnAvoidRadius)
             (fst c * fst c + snd c * snd c)
      then (c, S (S k))
      else spawnTries more half rand (S (S k)) c
  end.

(** One turn of the tree loop: the collider pushed and the next call. *)
Definition placeTree (half : R) (rand : Random) (k : nat)
    : Collider.t * nat :=
  let '(xz, k1) := spawnTries 50 half rand k (0, 0) in
  let h := 1 + rand k1 * 1.2 in
  let s := 0.9 + rand (S k1) * 0.6 in
  let rotY := rand (S (S k1)) * PI * 2 in
  (Collider.mk (Vector3.mk (fst xz) 0 (snd xz)) (1.15 * s), S (S (S k1))).

(** [for (let i = 0; i < treeCount; i++)]: [treeColliders] in the order of
    the pushes. *)
Fixpoint treeLoop (treeCount : nat) (half : R) (rand : Random) (k : nat)
    : list Collider.t * nat :=
  match treeCount with
  | O => ([], k)
  | S n =>
      let '(c, k1) := placeTree half rand k in
      let '(rest, k2) := treeLoop n half rand k1 in
      (c :: rest, k2)
  end.

Definition cloudLayerY : R := 46.
Definition cloudCount : nat := 34.

(** One turn of the cloud loop: seven calls of [Math.random], for the
    opacity, the width, the height factor, the three coordinates and the
    speed. *)
Definition placeCloud (cloudRange : R) (rand : Random) (k : nat) : Cloud.t :=
  Cloud.mk
    (Vector3.mk ((rand (3 + k)%nat * 2 - 1) * cloudRange)
                (cloudLayerY + rand (4 + k)%nat * 16)
                ((rand (5 + k)%nat * 2 - 1) * cloudRange))
    (0.5 + rand (6 + k)%nat * 1.2).

Fixpoint cloudLoop (count : nat) (cloudRange : R) (rand : Random) (k : nat)
    : list Cloud.t :=
  match count with
  | O => []
  | S n => placeCloud cloudRange rand k :: cloudLoop n cloudRange rand (7 + k)
  end.

(** The calls of [Math.random] in [makeGrassTexture] (9000 speckles of four
    calls, 1400 blades of five) and in [makeCloudTexture] (28 blobs of three
    calls, one call for each of the 256 * 256 pixels). *)
Definition grassTextureCalls : nat := 90 * 100 * 4 + 1400 * 5.
Definition cloudTextureCalls : nat := 28 * 3 + 256 * 256.

(** What [createEnvironment] builds: the object it returns, and the clouds
    its [update] closes over. *)
Record EnvironmentHandle : Type := mkEnvironmentHandle {
  env_returned : Environment.t;
  env_clouds : list Cloud.t;
  env_cloudRange : R
}.

(** [createEnvironment(scene, { fieldSize = 520, treeCount = 260 })], for a
    page whose first call of [Math.random] is made here. *)
Definition createEnvironment (rand : Random) (fieldSize : option R)
    (treeCount : option nat) : EnvironmentHandle :=
  let fieldSize := nullish fieldSize 520 in
  let treeCount := nullish treeCount 260%nat in
  let half := fieldSize / 2 in
  let '(treeColliders, k1) := treeLoop treeCount half rand grassTextureCalls in
  let cloudRange := half * 1.2 in
  let clouds :=
    cloudLoop cloudCount cloudRange rand (k1 + cloudTextureCalls) in
  {| env_returned :=
       Environment.mk (Some half) (Some 0) (Some treeColliders);
     env_clouds := clouds;
     env_cloudRange := cloudRange |}.

(** The [update(deltaSeconds)] of the environment: drift clouds. *)
Definition driftCloud (cloudRange deltaSeconds : R) (c : Cloud.t) : Cloud.t :=
  let x := Vector3.x (Cloud.position c) + Cloud.speed c * deltaSeconds in
  let x' := if ltb cloudRange x then - cloudRange else x in
  Cloud.mk
    (Vector3.mk x' (Vector3.y (Cloud.position c)) (Vector3.z (Cloud.position c)))
    (Cloud.speed c).

Definition environment_update (deltaSeconds : R) (e : EnvironmentHandle)
    : EnvironmentHandle :=
  {| env_returned := env_returned e;
     env_clouds := map (driftCloud (env_cloudRange e) deltaSeconds)
                       (env_clouds e);
     env_cloudRange := env_cloudRange e |}.

(** [Math.random] returns numbers from 0 up to, not including, 1. *)
Definition unitRandom (rand : Random) : Prop := forall n, 0 <= rand n < 1.

(** A collider as [createEnvironment] makes them for a field of half size
    [half]: at least 6 inside the edge, with a trunk radius from 1.035 up
    to 1.725. *)
Definition treeInField (half : R) (c : Collider.t) : Prop :=
  Rabs (Vector3.x (Collider.position c)) <= half - 6 /\
  Rabs (Vector3.z (Collider.position c)) <= half - 6 /\
  Vector3.y (Collider.position c) = 0 /\
  1.035 <= Collider.radius c < 1.725.

(** A cloud within the range the clouds wrap around in. *)
Definition cloudInRange (cloudRange : R) (c : Cloud.t) : Prop :=
  - cloudRange <= Vector3.x (Cloud.position c) <= cloudRange /\
  0.5 <= Cloud.speed c < 1.7.

(** ** The player: what [loadPlayer] hands to the controller *)

(** [playerRoot.position.set(0, environment.groundY ?? 0, 0)] *)
Definition loadPlayer_spawn (env : Environment.t) : Vector3.t :=
  Vector3.mk 0 (nullish (Environment.groundY env) 0) 0.

(** The controller built in the load callback, for the camera, the
    environment and the size [sized] of the bounding box of the player
    root. *)
Definition loadPlayer_controller (cam : Camera.t) (env : Environment.t)
    (sized : Vector3.t) : Controller :=
  let playerRadius := Rmax (Vector3.x sized) (Vector3.z sized) * 0.28 in
  let targetHeight := Rmax 0.8 (Rmin 1.6 (Vector3.y sized * 0.55)) in
  constructor
    {| opt_camera := cam;
       opt_target :=
         Some (Object3D.mk (loadPlayer_spawn env) Quaternion.identity);
       opt_environment := Some env;
       opt_targetHeight := Some targetHeight;
       opt_playerRadius := Some playerRadius;
       opt_onJump := Some player_onJump;
       opt_onMovementChange := Some player_onMovementChange |}.

(** ** The boars that follow: the [update] of [loadNPC] *)

Module NPC.
(** What the closure keeps from the options and from the load. *)
Record Config : Type := mkConfig {
  formationOffsetX : R;
  formationOffsetZ : R;
  followSpeed : R;
  oscillationSpeed : R
}.

Definition oscillationAmount : R := 0.35.

(** The follow target as a call of [update] finds it. *)
Record FollowTarget : Type := mkFollowTarget {
  ft_position : Vector3.t;
  ft_rotationY : R
}.

(** The root of the NPC and the variables the closure assigns. *)
Record State : Type := mkState {
  position : Vector3.t;
  rotationY : R;
  oscillationTime : R;
  currentRotation : R
}.

(** The place in the formation: the offset turned by the rotation of the
    follow target. *)
Definition slot (cfg : Config) (ft : FollowTarget) : R * R :=
  let cosR := cos (ft_rotationY ft) in
  let sinR := sin (ft_rotationY ft) in
  (Vector3.x (ft_position ft)
   + formationOffsetX cfg * cosR - formationOffsetZ cfg * sinR,
   Vector3.z (ft_position ft)
   + formationOffsetX cfg * sinR + formationOffsetZ cfg * cosR).

(** [update(dt)]; [followTarget] is [None] when the option was not given. *)
Definition update (cfg : Config) (followTarget : option FollowTarget)
    (dt : R) (n : State) : State :=
  let oscillationTime := oscillationTime n + dt * oscillationSpeed cfg in
  match followTarget with
  | Some ft =>
      (* Calculate target position in wedge formation behind player *)
      let '(targetX, targetZ) := slot cfg ft in
      (* Smoothly move towards target *)
      let dx := targetX - Vector3.x (position n) in
      let dz := targetZ - Vector3.z (position n) in
      let dist := sqrt (dx * dx + dz * dz) in
      if ltb 0.1 dist then
        let moveAmount := Rmin (followSpeed cfg * dt) dist in
        let currentRotation := atan2 dx dz in
        {| position :=
             Vector3.mk (Vector3.x (position n) + dx / dist * moveAmount)
                        (Vector3.y (position n))
                        (Vector3.z (position n) + dz / dist * moveAmount);
           rotationY :=
             currentRotation + sin oscillationTime * oscillationAmount;
           oscillationTime := oscillationTime;
           currentRotation := currentRotation |}
      else
        {| position := position n;
           rotationY :=
             currentRotation n + sin oscillationTime * oscillationAmount;
           oscillationTime := oscillationTime;
           currentRotation := currentRotation n |}
  | None =>
      (* Static NPC with just oscillation *)
      {| position := position n;
         rotationY := sin oscillationTime * oscillationAmount;
         oscillationTime := oscillationTime;
         currentRotation := currentRotation n |}
  end.

(** Horizontal distance from the NPC to its place in the formation. *)
Definition distanceToSlot (cfg : Config) (ft : FollowTarget) (n : State) : R :=
  let dx := fst (slot cfg ft) - Vector3.x (position n) in
  let dz := snd (slot cfg ft) - Vector3.z (position n) in
  sqrt (dx * dx + dz * dz).

(** [k] calls of [update] with the same follow target and [dt]. *)
Fixpoint updates (cfg : Config) (followTarget : option FollowTarget)
    (dt : R) (k : nat) (n : State) : State :=
  match k with
  | O => n
  | S j => updates cfg followTarget dt j (update cfg followTarget dt n)
  end.
End NPC.

(** ** The game loop of [main.js] *)

(** An NPC as [main.js] loads them, without a follow target: the options
    its [update] closes over, and its state. *)
Record NpcHandle : Type := mkNpcHandle {
  npc_config : NPC.Config;
  npc_state : NPC.State
}.

(** What [tick] advances: the environment, the player once it is loaded
    ([player] is [null] before) and the NPCs loaded so far.  The animation
    mixers and the renderer are left out. *)
Record Game : Type := mkGame {
  game_env : EnvironmentHandle;
  game_player : option Controller;
  game_npcs : list NpcHandle
}.

(** [tick()], for the [delta] that [clock.getDelta()] returns: the game
    after the frame and the effects of the callbacks called. *)
Definition tick (delta : R) (g : Game) : Game * list Effect :=
  let dt := Rmin 0.05 delta in
  let env := environment_update dt (game_env g) in
  let player :=
    match game_player g with
    | Some controller => Some (update dt controller)
    | None => None
    end in
  (* Update NPCs (animations + looking movement) *)
  let npcs :=
    map (fun npc =>
           mkNpcHandle (npc_config npc)
             (NPC.update (npc_config npc) None dt (npc_state npc)))
        (game_npcs g) in
  ({| game_env := env;
      game_player :=
        match player with Some r => Some (fst r) | None => None end;
      game_npcs := npcs |},
   match player with Some r => snd r | None => [] end).

(** ** Listeners: what the constructor registers and [dispose] removes *)














(** * Properties *)

(** ** Tests on numbers *)

Lemma ltb_true (a b : R) : ltb a b = true <-> a < b.
Proof. unfold ltb. destruct (Rlt_dec a b); split; auto; discriminate. Qed.

Lemma ltb_false (a b : R) : ltb a b = false <-> b <= a.
Proof.
  unfold ltb. destruct (Rlt_dec a b); split; intro H; auto; try discriminate;
    lra.
Qed.

Lemma leb_true (a b : R) : leb a b = true <-> a <= b.
Proof. unfold leb. destruct (Rle_dec a b); split; auto; discriminate. Qed.

Lemma leb_false (a b : R) : leb a b = false <-> b < a.
Proof.
  unfold leb. destruct (Rle_dec a b); split; intro H; auto; try discriminate;
    lra.
Qed.

Lemma eqb_true (a b : R) : eqb a b = true <-> a = b.
Proof. unfold eqb. destruct (Req_dec_T a b); split; auto; discriminate. Qed.

Lemma eqb_false (a b : R) : eqb a b = false <-> a <> b.
Proof.
  unfold eqb. destruct (Req_dec_T a b); split; intro H; auto; try discriminate;
    contradiction.
Qed.

Lemma eqb_refl (a : R) : eqb a a = true.
Proof. apply eqb_true. reflexivity. Qed.

Lemma orElse_nonzero (a b : R) : a <> 0 -> orElse a b = a.
Proof. intro H. unfold orElse. apply eqb_false in H. rewrite H. reflexivity. Qed.

Lemma orElse_zero (b : R) : orElse 0 b = b.
Proof. unfold orElse. rewrite eqb_refl. reflexivity. Qed.

Lemma clamp_bounds (v lo hi : R) : lo <= hi -> lo <= clamp v lo hi <= hi.
Proof.
  intro H. unfold clamp, Rmax, Rmin.
  destruct (Rle_dec hi v); destruct (Rle_dec lo _); lra.
Qed.

Lemma clamp_inside (v lo hi : R) : lo <= v <= hi -> clamp v lo hi = v.
Proof.
  intro H. unfold clamp, Rmax, Rmin.
  destruct (Rle_dec hi v); destruct (Rle_dec lo _); lra.
Qed.

(** ** Vectors *)

Lemma Vector3_eta (v : Vector3.t) :
  v = Vector3.mk (Vector3.x v) (Vector3.y v) (Vector3.z v).
Proof. destruct v. reflexivity. Qed.

(** A vector that is not the null vector is normalised to unit length. *)
Lemma normalize_lengthSq (v : Vector3.t) :
  0 < Vector3.lengthSq v -> Vector3.lengthSq (Vector3.normalize v) = 1.
Proof.
  intro H.
  assert (Hs : 0 < sqrt (Vector3.lengthSq v)) by (apply sqrt_lt_R0; exact H).
  unfold Vector3.normalize, Vector3.length.
  rewrite orElse_nonzero by lra.
  pose proof (sqrt_sqrt (Vector3.lengthSq v) (Rlt_le _ _ H)) as Hq.
  set (l := sqrt (Vector3.lengthSq v)) in *.
  unfold Vector3.divideScalar, Vector3.multiplyScalar.
  unfold Vector3.lengthSq at 1. simpl.
  unfold Vector3.lengthSq in Hq.
  replace (Vector3.x v * (1 / l) * (Vector3.x v * (1 / l)) +
           Vector3.y v * (1 / l) * (Vector3.y v * (1 / l)) +
           Vector3.z v * (1 / l) * (Vector3.z v * (1 / l)))
    with ((Vector3.x v * Vector3.x v + Vector3.y v * Vector3.y v +
           Vector3.z v * Vector3.z v) / (l * l)) by (field; lra).
  rewrite <- Hq. field. nra.
Qed.

(** A unit vector is left as it is. *)
Lemma normalize_unit (v : Vector3.t) :
  Vector3.lengthSq v = 1 -> Vector3.normalize v = v.
Proof.
  intro H. unfold Vector3.normalize, Vector3.length. rewrite H, sqrt_1.
  rewrite orElse_nonzero by lra.
  unfold Vector3.divideScalar, Vector3.multiplyScalar.
  rewrite (Vector3_eta v) at 4. f_equal; field.
Qed.

Lemma normalize_y0 (v : Vector3.t) :
  Vector3.y v = 0 -> Vector3.y (Vector3.normalize v) = 0.
Proof.
  intro H. unfold Vector3.normalize, Vector3.divideScalar. simpl.
  rewrite H. ring.
Qed.

(** ** The camera axes and the move direction *)

(** [_camForward] is always a horizontal unit vector. *)
Lemma camForwardOf_unit (cam : Camera.t) :
  Vector3.y (camForwardOf cam) = 0 /\
  Vector3.lengthSq (camForwardOf cam) = 1.
Proof.
  unfold camForwardOf.
  set (f := Vector3.set_y (Camera.getWorldDirection cam) 0).
  destruct (ltb (Vector3.lengthSq f) 1e-6) eqn:E.
  - split; [reflexivity | unfold Vector3.lengthSq; simpl; ring].
  - apply ltb_false in E. split.
    + apply normalize_y0. reflexivity.
    + apply normalize_lengthSq. lra.
Qed.

(** With the up vector of the constructor, [_camRight] is [_camForward]
    turned by a quarter turn. *)
Lemma camRightOf_up (f : Vector3.t) :
  Vector3.y f = 0 -> Vector3.lengthSq f = 1 ->
  camRightOf f (Vector3.mk 0 1 0) = Vector3.mk (- Vector3.z f) 0 (Vector3.x f).
Proof.
  intros Hy Hl. unfold camRightOf.
  assert (Hc : Vector3.crossVectors f (Vector3.mk 0 1 0)
               = Vector3.mk (- Vector3.z f) 0 (Vector3.x f)).
  { unfold Vector3.crossVectors. simpl. rewrite Hy. f_equal; ring. }
  rewrite Hc. apply normalize_unit.
  unfold Vector3.lengthSq in *. simpl. rewrite Hy in Hl. lra.
Qed.

Lemma rawMoveDir_lengthSq (f : Vector3.t) (xi zi : R) :
  Vector3.y f = 0 -> Vector3.lengthSq f = 1 ->
  Vector3.lengthSq (rawMoveDir f (camRightOf f (Vector3.mk 0 1 0)) xi zi)
  = xi * xi + zi * zi.
Proof.
  intros Hy Hl. rewrite (camRightOf_up f Hy Hl).
  unfold rawMoveDir, Vector3.lengthSq in *. rewrite Hy in Hl.
  destruct (eqb xi 0) eqn:Ex; destruct (eqb zi 0) eqn:Ez; simpl;
    try apply eqb_true in Ex; try apply eqb_true in Ez; subst;
    rewrite ?Hy; nra.
Qed.

Lemma rawMoveDir_y (f : Vector3.t) (xi zi : R) :
  Vector3.y f = 0 -> Vector3.lengthSq f = 1 ->
  Vector3.y (rawMoveDir f (camRightOf f (Vector3.mk 0 1 0)) xi zi) = 0.
Proof.
  intros Hy Hl. rewrite (camRightOf_up f Hy Hl).
  unfold rawMoveDir.
  destruct (eqb xi 0); destruct (eqb zi 0); simpl; rewrite ?Hy; ring.
Qed.

(** The key axes take the values -1, 0 and 1. *)
Lemma xInputOf_cases (keys : set string) :
  xInputOf keys = -1 \/ xInputOf keys = 0 \/ xInputOf keys = 1.
Proof.
  unfold xInputOf. destruct (has "KeyD" keys); destruct (has "KeyA" keys); lra.
Qed.

Lemma zInputOf_cases (keys : set string) :
  zInputOf keys = -1 \/ zInputOf keys = 0 \/ zInputOf keys = 1.
Proof.
  unfold zInputOf. destruct (has "KeyW" keys); destruct (has "KeyS" keys); lra.
Qed.

Lemma hasMove_moveIntent (f : Vector3.t) (keys : set string) :
  Vector3.y f = 0 -> Vector3.lengthSq f = 1 ->
  ltb 1e-6
    (Vector3.lengthSq
       (rawMoveDir f (camRightOf f (Vector3.mk 0 1 0))
          (xInputOf keys) (zInputOf keys)))
  = moveIntent keys.
Proof.
  intros Hy Hl. rewrite (rawMoveDir_lengthSq f _ _ Hy Hl). unfold moveIntent.
  destruct (xInputOf_cases keys) as [Hx | [Hx | Hx]];
    destruct (zInputOf_cases keys) as [Hz | [Hz | Hz]]; rewrite Hx, Hz;
    repeat match goal with
    | |- context [eqb ?a ?b] =>
        let E := fresh in destruct (eqb a b) eqn:E;
        [apply eqb_true in E | apply eqb_false in E]; try lra
    end; simpl;
    try (apply ltb_true; lra); try (apply ltb_false; lra).
Qed.

(** ** What a frame does to the fields *)

Section Frame.
Variables (dt : R) (s : Controller) (tgt : Object3D.t).
Hypothesis Htarget : target s = Some tgt.

Lemma update_keysDown : _keysDown (fst (update dt s)) = _keysDown s.
Proof. unfold update. rewrite Htarget. reflexivity. Qed.

Lemma update_moveDir :
  _up s = Vector3.mk 0 1 0 ->
  exists f,
    Vector3.y f = 0 /\ Vector3.lengthSq f = 1 /\
    _camForward (fst (update dt s)) = f /\
    let m := rawMoveDir f (camRightOf f (Vector3.mk 0 1 0))
               (xInputOf (_keysDown s)) (zInputOf (_keysDown s)) in
    _moveDir (fst (update dt s))
    = (if moveIntent (_keysDown s) then Vector3.normalize m else m) /\
    _desiredVel (fst (update dt s))
    = Vector3.multiplyScalar (_moveDir (fst (update dt s)))
        (if moveIntent (_keysDown s)
         then (if isRunningOf (_keysDown s) then runSpeed s else walkSpeed s)
         else 0).
Proof.
  intro Hup. unfold update. rewrite Htarget, Hup. cbn [fst _camForward _moveDir _desiredVel].
  match goal with |- context [camForwardOf ?c] => set (cam := c) end.
  destruct (camForwardOf_unit cam) as [Hy Hl].
  exists (camForwardOf cam). repeat split; auto;
    rewrite (hasMove_moveIntent _ _ Hy Hl); reflexivity.
Qed.
End Frame.

(** ** The collision loop leaves heights alone *)

Lemma collide_y (pr : R) (pv : Vector3.t * Vector3.t) (c : Collider.t) :
  Vector3.y (fst (collide pr pv c)) = Vector3.y (fst pv) /\
  Vector3.y (snd (collide pr pv c)) = Vector3.y (snd pv).
Proof.
  destruct pv as [p v]. unfold collide.
  destruct (ltb _ _); [destruct (ltb _ 0) |]; split; reflexivity.
Qed.

Lemma treeCollisions_y (pr : R) (cs : list Collider.t) :
  forall pv,
    Vector3.y (fst (treeCollisions pr cs pv)) = Vector3.y (fst pv) /\
    Vector3.y (snd (treeCollisions pr cs pv)) = Vector3.y (snd pv).
Proof.
  unfold treeCollisions. induction cs as [| c cs IH]; intro pv; cbn [fold_left].
  - split; reflexivity.
  - destruct (IH (collide pr pv c)) as [H1 H2].
    destruct (collide_y pr pv c) as [H3 H4]. split; congruence.
Qed.

(** A collider that does not overlap the player changes nothing. *)
Lemma collide_miss (pr : R) (p v : Vector3.t) (c : Collider.t) :
  overlaps pr p c = false -> collide pr (p, v) c = (p, v).
Proof. unfold overlaps, collide. intro H. rewrite H. reflexivity. Qed.

Lemma treeCollisions_miss (pr : R) (cs : list Collider.t) (p v : Vector3.t) :
  Forall (fun c => overlaps pr p c = false) cs ->
  treeCollisions pr cs (p, v) = (p, v).
Proof.
  unfold treeCollisions. induction 1 as [| c cs Hc _ IH]; cbn [fold_left].
  - reflexivity.
  - rewrite (collide_miss pr p v c Hc). exact IH.
Qed.

(** ** The vertical part of a frame *)

Section Vertical.
Variables (dt : R) (s : Controller) (tgt : Object3D.t).
Hypothesis Htarget : target s = Some tgt.

(** Lines 200 to 222, read off the state after the frame. *)
Lemma update_vertical :
  let jump := onGround s && _jumpRequested s in
  let vy1 := if jump then jumpSpeed s else Vector3.y (velocity s) in
  let onGround1 := if jump then false else onGround s in
  let vy2 := if negb onGround1 then vy1 - gravity s * dt else vy1 in
  let py := Vector3.y (Object3D.position tgt) + vy2 * dt in
  let landed := leb py (groundYOf s) in
  heightOf (fst (update dt s)) = Some (if landed then groundYOf s else py) /\
  Vector3.y (velocity (fst (update dt s))) = (if landed then 0 else vy2) /\
  onGround (fst (update dt s)) = (if landed then true else onGround1) /\
  _jumpRequested (fst (update dt s)) = false /\
  snd (update dt s)
  = (if jump then match onJump s with Some f => f tt | None => [] end
     else []).
Proof.
  unfold update, heightOf, groundYOf. rewrite Htarget.
  cbn [fst snd target velocity onGround _jumpRequested Object3D.position].
  match goal with
  | |- context [treeCollisions ?pr ?cs ?pv] =>
      destruct (treeCollisions_y pr cs pv) as [H1 H2]; rewrite H1, H2
  end.
  repeat split; reflexivity.
Qed.

Lemma update_target_some : exists tgt', target (fst (update dt s)) = Some tgt'.
Proof. unfold update. rewrite Htarget. eexists. reflexivity. Qed.

Lemma update_same_config : same_config s (fst (update dt s)).
Proof. unfold update. rewrite Htarget. repeat split. Qed.

Lemma update_orbit :
  phi (fst (update dt s)) = phi s /\ distance (fst (update dt s)) = distance s.
Proof. unfold update. rewrite Htarget. split; reflexivity. Qed.
End Vertical.

(** Without a target a frame is the identity. *)
Lemma update_no_target (dt : R) (s : Controller) :
  target s = None -> update dt s = (s, []).
Proof. intro H. unfold update. rewrite H. reflexivity. Qed.

Lemma same_config_refl (s : Controller) : same_config s s.
Proof. repeat split. Qed.

Lemma same_config_trans (a b c : Controller) :
  same_config a b -> same_config b c -> same_config a c.
Proof.
  unfold same_config. intros H1 H2.
  repeat match goal with H : _ /\ _ |- _ => destruct H end.
  repeat split; congruence.
Qed.

(** ** What the handlers leave alone *)

Ltac handler_cases :=
  unfold _onKeyDown, _onKeyUp, _onPointerDown, _onPointerMove, _onPointerUp,
    _onWheel;
  repeat match goal with
  | |- context [if ?b then _ else _] => destruct b
  end.

Lemma handlers_same_config (s : Controller) (i : Input) :
  isFrame i = false -> same_config s (fst (step s i)).
Proof.
  destruct i; simpl; intro H; try discriminate;
    handler_cases; repeat split.
Qed.

(** The event handlers do not touch the physics of the character. *)
Lemma handlers_physics (s : Controller) (i : Input) :
  isFrame i = false ->
  target (fst (step s i)) = target s /\
  velocity (fst (step s i)) = velocity s /\
  onGround (fst (step s i)) = onGround s /\
  camera (fst (step s i)) = camera s /\
  snd (step s i) = [].
Proof.
  destruct i; simpl; intro H; try discriminate;
    handler_cases; repeat split.
Qed.

Lemma step_same_config (s : Controller) (i : Input) :
  same_config s (fst (step s i)).
Proof.
  destruct (isFrame i) eqn:E.
  - destruct i; try discriminate. simpl.
    destruct (target s) as [tgt |] eqn:Ht.
    + apply (update_same_config dt s tgt Ht).
    + rewrite (update_no_target dt s Ht). apply same_config_refl.
  - apply handlers_same_config. exact E.
Qed.

Lemma state_after_cons (s : Controller) (i : Input) (rest : list Input) :
  state_after s (i :: rest) = state_after (fst (step s i)) rest.
Proof.
  unfold state_after. simpl. destruct (step s i) as [s1 o1].
  simpl. destruct (run s1 rest). reflexivity.
Qed.

Lemma state_after_app (inputs more : list Input) :
  forall s,
    state_after s (inputs ++ more) = state_after (state_after s inputs) more.
Proof.
  induction inputs as [| i rest IH]; intro s.
  - reflexivity.
  - rewrite <- app_comm_cons, !state_after_cons. apply IH.
Qed.

Lemma run_same_config (inputs : list Input) :
  forall s, same_config s (state_after s inputs).
Proof.
  induction inputs as [| i rest IH]; intro s.
  - apply same_config_refl.
  - rewrite state_after_cons.
    eapply same_config_trans; [apply step_same_config | apply IH].
Qed.

(** A run never gains nor loses its target. *)
Lemma step_target_presence (s : Controller) (i : Input) :
  target s = None <-> target (fst (step s i)) = None.
Proof.
  destruct (isFrame i) eqn:E.
  - destruct i; try discriminate. simpl.
    destruct (target s) as [tgt |] eqn:Ht.
    + destruct (update_target_some dt s tgt Ht) as [t' Ht']. rewrite Ht'.
      split; discriminate.
    + rewrite (update_no_target dt s Ht). simpl. rewrite Ht. tauto.
  - destruct (handlers_physics s i E) as [H _]. rewrite H. tauto.
Qed.

Lemma run_target_presence (inputs : list Input) :
  forall s, target s = None <-> target (state_after s inputs) = None.
Proof.
  induction inputs as [| i rest IH]; intro s.
  - tauto.
  - rewrite state_after_cons, <- IH. apply step_target_presence.
Qed.

(** ** Damping *)

Lemma damp_formula (current target lambda dt : R) :
  damp current target lambda dt = damp_spec current target lambda dt.
Proof. unfold damp, damp_spec, MathUtils.lerp. ring. Qed.

Lemma decay_factor (lambda dt : R) :
  0 < lambda -> 0 < dt -> 0 < exp (- lambda * dt) < 1.
Proof.
  intros Hl Hd. split; [apply exp_pos |].
  rewrite <- exp_0. apply exp_increasing. nra.
Qed.

(** The distance to the target is multiplied by [e^(-lambda*dt)] a frame. *)
Lemma damp_iter_closed (current target lambda dt : R) (n : nat) :
  damp_iter n current target lambda dt - target
  = (current - target) * exp (- lambda * dt) ^ n.
Proof.
  induction n as [| n IH]; simpl.
  - ring.
  - rewrite damp_formula. unfold damp_spec.
    set (q := exp (- lambda * dt)) in *.
    set (c := damp_iter n current target lambda dt) in *.
    replace (c + (target - c) * (1 - q) - target) with (q * (c - target))
      by ring.
    rewrite IH. ring.
Qed.

(** C7: [damp] computes [current + (target - current) * (1 - e^(-lambda*dt))];
    with [lambda > 0] and a fixed [dt > 0], iterating it from any [current]
    moves monotonically towards [target], never passes it, and converges to
    it. *)
Theorem damp_converges_monotonically (current target lambda dt : R) :
  0 < lambda -> 0 < dt ->
  damp current target lambda dt
  = current + (target - current) * (1 - exp (- lambda * dt)) /\
  (forall n,
     (current <= target ->
      damp_iter n current target lambda dt
      <= damp_iter (S n) current target lambda dt <= target) /\
     (target <= current ->
      target <= damp_iter (S n) current target lambda dt
      <= damp_iter n current target lambda dt)) /\
  (forall eps, 0 < eps ->
     exists N, forall n, (N <= n)%nat ->
       Rabs (damp_iter n current target lambda dt - target) < eps).
Proof.
  intros Hl Hd. pose proof (decay_factor lambda dt Hl Hd) as Hq.
  split; [apply damp_formula |]. split.
  - intro n.
    pose proof (damp_iter_closed current target lambda dt n) as Hn.
    pose proof (damp_iter_closed current target lambda dt (S n)) as HS.
    simpl pow in HS.
    set (q := exp (- lambda * dt)) in *.
    assert (Hp : 0 < q ^ n) by (apply pow_lt; lra).
    set (a := damp_iter n current target lambda dt) in *.
    set (b := damp_iter (S n) current target lambda dt) in *.
    assert (Hb : b - target = q * (a - target)) by (rewrite HS, Hn; ring).
    split; intro Hc.
    + assert (a - target <= 0) by (rewrite Hn; nra). nra.
    + assert (0 <= a - target) by (rewrite Hn; nra). nra.
  - intros eps He.
    set (q := exp (- lambda * dt)) in *.
    destruct (Req_dec_T current target) as [E | E].
    + exists O. intros n _. rewrite damp_iter_closed, E.
      replace ((target - target) * _) with 0 by ring. rewrite Rabs_R0. exact He.
    + assert (Hd0 : 0 < Rabs (current - target)) by (apply Rabs_pos_lt; lra).
      assert (Hr : Rabs q < 1) by (rewrite Rabs_pos_eq; lra).
      destruct (pow_lt_1_zero q Hr (eps / Rabs (current - target)))
        as [N HN].
      { apply Rdiv_lt_0_compat; assumption. }
      exists N. intros n Hn. rewrite damp_iter_closed, Rabs_mult.
      specialize (HN n Hn).
      apply (Rmult_lt_compat_l (Rabs (current - target))) in HN; [| exact Hd0].
      replace (Rabs (current - target) * (eps / Rabs (current - target)))
        with eps in HN by (field; lra).
      exact HN.
Qed.

(** The theorem at [current = 0], [target = 1], [lambda = 18], [dt = 1/60]. *)
Lemma damp_converges_monotonically_witness :
  damp 0 1 18 (1 / 60) = 0 + (1 - 0) * (1 - exp (- 18 * (1 / 60))) /\
  (forall n,
     (0 <= 1 ->
      damp_iter n 0 1 18 (1 / 60) <= damp_iter (S n) 0 1 18 (1 / 60) <= 1) /\
     (1 <= 0 ->
      1 <= damp_iter (S n) 0 1 18 (1 / 60) <= damp_iter n 0 1 18 (1 / 60))) /\
  (forall eps, 0 < eps ->
     exists N, forall n, (N <= n)%nat ->
       Rabs (damp_iter n 0 1 18 (1 / 60) - 1) < eps).
Proof. apply (damp_converges_monotonically 0 1 18 (1 / 60)); lra. Defined.

(** ** C10: a frame without a target *)



(** ** C6: the ground clamp *)

(** C6: with ground height 0 and no jump request, a frame of any [dt > 0]
    from a height above 0 with a downward vertical velocity never ends below
    0; and a frame from the grounded state (height 0, vertical velocity 0)
    leaves the height at exactly 0 and the vertical velocity at exactly 0. *)
Theorem ground_clamp_idempotent (dt : R) (s g : Controller)
    (ts tg : Object3D.t) :
  0 < dt ->
  target s = Some ts -> groundYOf s = 0 -> _jumpRequested s = false ->
  0 < Vector3.y (Object3D.position ts) -> Vector3.y (velocity s) <= 0 ->
  target g = Some tg -> groundYOf g = 0 -> _jumpRequested g = false ->
  onGround g = true ->
  Vector3.y (Object3D.position tg) = 0 -> Vector3.y (velocity g) = 0 ->
  (exists h, heightOf (fst (update dt s)) = Some h /\ 0 <= h) /\
  heightOf (fst (update dt g)) = Some 0 /\
  Vector3.y (velocity (fst (update dt g))) = 0 /\
  onGround (fst (update dt g)) = true.
Proof.
  intros Hdt Hs Hgs Hjs Hh Hv Hg Hgg Hjg Hog Hh0 Hv0. split.
  - destruct (update_vertical dt s ts Hs) as [H _]. rewrite H, Hgs.
    eexists. split; [reflexivity |].
    destruct (leb _ 0) eqn:E; [lra | apply leb_false in E; lra].
  - destruct (update_vertical dt g tg Hg) as (H1 & H2 & H3 & _).
    rewrite H1, H2, H3, Hgg, Hog, Hjg, Hh0, Hv0. simpl.
    assert (E : leb (0 + 0 * dt) 0 = true) by (apply leb_true; lra).
    rewrite E. repeat split; reflexivity.
Qed.

(** The theorem for a character falling at 5 units a second from height 3,
    and for the character as [loadPlayer] spawns it. *)
Lemma ground_clamp_idempotent_witness :
  let s :=
    in_motion (Vector3.mk 0 (-5) 0) false
      (constructor
         (loadPlayer_options (Vector3.mk 0 3 0) (field_environment []))) in
  let g :=
    constructor (loadPlayer_options (Vector3.mk 0 0 0) (field_environment []))
  in
  (exists h, heightOf (fst (update 1 s)) = Some h /\ 0 <= h) /\
  heightOf (fst (update 1 g)) = Some 0 /\
  Vector3.y (velocity (fst (update 1 g))) = 0 /\
  onGround (fst (update 1 g)) = true.
Proof.
  intros s g.
  apply (ground_clamp_idempotent 1 s g
           (Object3D.mk (Vector3.mk 0 3 0) Quaternion.identity)
           (Object3D.mk (Vector3.mk 0 0 0) Quaternion.identity));
    try reflexivity; simpl; lra.
Defined.

(** ** C4: the ground flag *)

Lemma grounded_inv_agrees (s : Controller) :
  grounded_inv s -> onGround_agrees s.
Proof.
  intros H h Hh. destruct (H h Hh) as [H1 H2].
  destruct (onGround s).
  - split; [intros _; apply H1; reflexivity | reflexivity].
  - split; [discriminate | intro Hle; specialize (H2 eq_refl); lra].
Qed.

Lemma update_grounded_inv (dt : R) (s : Controller) :
  grounded_inv s -> grounded_inv (fst (update dt s)).
Proof.
  intro Inv. destruct (target s) as [tgt |] eqn:Ht.
  - assert (Hh : heightOf s = Some (Vector3.y (Object3D.position tgt)))
      by (unfold heightOf; rewrite Ht; reflexivity).
    destruct (Inv _ Hh) as [I1 I2].
    destruct (update_vertical dt s tgt Ht) as (H1 & H2 & H3 & _).
    destruct (update_same_config dt s tgt Ht) as [He _].
    intros h' Hh'. unfold groundYOf. rewrite He. fold (groundYOf s).
    rewrite H1 in Hh'. injection Hh' as <-. rewrite H2, H3.
    destruct (leb _ (groundYOf s)) eqn:E.
    + split; [intros _; split; [lra | reflexivity] | discriminate].
    + apply leb_false in E.
      destruct (onGround s) eqn:Eg; destruct (_jumpRequested s); simpl in *;
        split; intro H; try discriminate; try exact E.
      destruct (I1 eq_refl) as [Hle Hv]. rewrite Hv in E. lra.
  - rewrite (update_no_target dt s Ht). exact Inv.
Qed.

Lemma step_grounded_inv (s : Controller) (i : Input) :
  grounded_inv s -> grounded_inv (fst (step s i)).
Proof.
  intro Inv. destruct (isFrame i) eqn:E.
  - destruct i; try discriminate. apply update_grounded_inv. exact Inv.
  - destruct (handlers_physics s i E) as (Ht & Hv & Hg & _).
    destruct (handlers_same_config s i E) as [He _].
    unfold grounded_inv, heightOf, groundYOf in *. rewrite Ht, Hv, Hg, He.
    exact Inv.
Qed.

Lemma run_grounded_inv (inputs : list Input) :
  forall s, grounded_inv s -> grounded_inv (state_after s inputs).
Proof.
  induction inputs as [| i rest IH]; intros s Inv.
  - exact Inv.
  - rewrite state_after_cons. apply IH, step_grounded_inv, Inv.
Qed.

(** C4, as amended: when the target handed to the constructor is at or
    below ground height, then in every reachable state with a target,
    [onGround] is true if and only if the target's height is at or below the
    ground height. *)
Theorem onGround_iff_at_or_below_ground (o : Options) (s : Controller) :
  (forall h, heightOf (constructor o) = Some h ->
             h <= groundYOf (constructor o)) ->
  Reachable o s -> onGround_agrees s.
Proof.
  intros Hspawn [inputs ->]. apply grounded_inv_agrees, run_grounded_inv.
  intros h Hh. split.
  - intros _. split; [apply Hspawn, Hh | reflexivity].
  - discriminate.
Qed.

(** The theorem for the player as [loadPlayer] spawns it, after a jump. *)
Lemma onGround_iff_at_or_below_ground_witness :
  let o := loadPlayer_options (Vector3.mk 0 0 0) (field_environment []) in
  onGround_agrees
    (state_after (constructor o)
       [KeyDown (mkKeyboardEvent "Space" false); Frame (1 / 60)]).
Proof.
  intro o.
  apply (onGround_iff_at_or_below_ground o).
  - intros h Hh. injection Hh as <-. vm_compute. lra.
  - eexists. reflexivity.
Defined.

(** C4 as stated fails: a controller built for a target 5 units above the
    ground has [onGround] true. *)
Lemma onGround_counterexample :
  let o := loadPlayer_options (Vector3.mk 0 5 0) (field_environment []) in
  Reachable o (constructor o) /\ ~ onGround_agrees (constructor o).
Proof.
  intro o. split.
  - exists []. reflexivity.
  - intro H. specialize (H 5 eq_refl). destruct H as [H _].
    specialize (H eq_refl). unfold groundYOf in H. simpl in H. lra.
Qed.

(** ** C5: the jump request *)

(** Only a press of the jump key sets the request, and no handler clears
    it. *)
Lemma handlers_jumpRequested (s : Controller) (i : Input) :
  isFrame i = false -> isJumpPress i = false ->
  _jumpRequested (fst (step s i)) = _jumpRequested s.
Proof.
  destruct i; simpl; intros H1 H2; try discriminate;
    try (handler_cases; reflexivity).
  unfold _onKeyDown. rewrite H2. reflexivity.
Qed.










(** ** C9: the camera orbit *)

Lemma constructor_orbit_ok (o : Options) : orbit_ok (constructor o).
Proof. unfold orbit_ok. simpl. lra. Qed.


Lemma step_orbit_ok (s : Controller) (i : Input) :
  bounds_in_order s -> orbit_ok s -> orbit_ok (fst (step s i)).
Proof.
  intros [Bp Bd] [Hp Hd]. unfold orbit_ok.
  destruct i; cbn [step fst];
    try (handler_cases; simpl; split;
         first [assumption | apply clamp_bounds; assumption]).
  destruct (target s) as [tgt |] eqn:Ht.
  - destruct (update_orbit dt s tgt Ht) as [E1 E2].
    destruct (update_same_config dt s tgt Ht)
      as (_ & _ & _ & _ & _ & _ & _ & _ & _ & E3 & E4 & E5 & E6 & _).
    rewrite E1, E2, E3, E4, E5, E6. split; assumption.
  - rewrite (update_no_target dt s Ht). split; assumption.
Qed.

Lemma same_config_bounds (a b : Controller) :
  same_config a b -> bounds_in_order a -> bounds_in_order b.
Proof.
  intros (_ & _ & _ & _ & _ & _ & _ & _ & _ & E3 & E4 & E5 & E6 & _) [H1 H2].
  unfold bounds_in_order. rewrite E3, E4, E5, E6. split; assumption.
Qed.

Lemma run_orbit_ok (inputs : list Input) :
  forall s, bounds_in_order s -> orbit_ok s -> orbit_ok (state_after s inputs).
Proof.
  induction inputs as [| i rest IH]; intros s B H; [exact H |].
  rewrite state_after_cons. apply IH.
  - apply (same_config_bounds s); [apply step_same_config | exact B].
  - apply step_orbit_ok; assumption.
Qed.

Lemma constructor_bounds_in_order (o : Options) :
  bounds_in_order (constructor o).
Proof. unfold bounds_in_order. simpl. lra. Qed.



Lemma reachable_config (o : Options) (s : Controller) :
  Reachable o s -> same_config (constructor o) s.
Proof. intros [inputs ->]. apply run_same_config. Qed.

Lemma reachable_orbit_ok (o : Options) (s : Controller) :
  Reachable o s -> orbit_ok s.
Proof.
  intros [inputs ->].
  apply run_orbit_ok;
    [apply constructor_bounds_in_order | apply constructor_orbit_ok].
Qed.

Lemma reachable_more (o : Options) (s : Controller) (more : list Input) :
  Reachable o s -> Reachable o (state_after s more).
Proof.
  intros [inputs ->]. exists (inputs ++ more). symmetry.
  apply state_after_app.
Qed.



(** ** C8: diagonal movement *)

Lemma multiplyScalar_length (v : Vector3.t) (k : R) :
  Vector3.lengthSq v = 1 -> 0 <= k ->
  Vector3.length (Vector3.multiplyScalar v k) = k.
Proof.
  intros Hv Hk. unfold Vector3.length.
  replace (Vector3.lengthSq (Vector3.multiplyScalar v k)) with (k * k).
  - apply sqrt_square. exact Hk.
  - unfold Vector3.lengthSq in *. simpl.
    replace (Vector3.x v * k * (Vector3.x v * k) +
             Vector3.y v * k * (Vector3.y v * k) +
             Vector3.z v * k * (Vector3.z v * k))
      with ((Vector3.x v * Vector3.x v + Vector3.y v * Vector3.y v +
             Vector3.z v * Vector3.z v) * (k * k)) by ring.
    rewrite Hv. ring.
Qed.

(** With move intent, [_moveDir] is a horizontal unit vector and
    [_desiredVel] has the length of the speed in force. *)
Lemma desiredVel_speed (o : Options) (s : Controller) (dt : R) :
  Reachable o s -> target s <> None -> moveIntent (_keysDown s) = true ->
  Vector3.lengthSq (_moveDir (fst (update dt s))) = 1 /\
  Vector3.y (_desiredVel (fst (update dt s))) = 0 /\
  Vector3.length (_desiredVel (fst (update dt s)))
  = (if isRunningOf (_keysDown s) then 7.4 else 4.6).
Proof.
  intros Hreach Ht Hmove.
  destruct (target s) as [tgt |] eqn:Etgt; [| contradiction].
  pose proof (reachable_config o s Hreach)
    as (_ & _ & _ & _ & Ew & Er & _ & _ & _ & _ & _ & _ & _ & _ & Eup).
  simpl in Ew, Er, Eup.
  destruct (update_moveDir dt s tgt Etgt Eup) as (f & Hy & Hl & _ & Hm & Hd).
  rewrite Hmove in Hm, Hd.
  assert (Hraw : 0 < Vector3.lengthSq
                   (rawMoveDir f (camRightOf f (Vector3.mk 0 1 0))
                      (xInputOf (_keysDown s)) (zInputOf (_keysDown s)))).
  { pose proof (hasMove_moveIntent f (_keysDown s) Hy Hl) as H.
    rewrite Hmove in H. apply ltb_true in H. lra. }
  assert (Hunit : Vector3.lengthSq (_moveDir (fst (update dt s))) = 1)
    by (rewrite Hm; apply normalize_lengthSq, Hraw).
  split; [exact Hunit |]. split.
  - rewrite Hd, Hm. simpl.
    rewrite (rawMoveDir_y f _ _ Hy Hl). ring.
  - rewrite Hd, Ew, Er. apply multiplyScalar_length; [exact Hunit |].
    destruct (isRunningOf _); lra.
Qed.






(** ** The collision loop *)

Lemma abs_le_hypot (a b : R) : Rabs a <= sqrt (a * a + b * b).
Proof.
  rewrite <- (sqrt_Rsqr_abs a). apply sqrt_le_1_alt. unfold Rsqr. nra.
Qed.

Lemma hypot_zero (a b : R) : sqrt (a * a + b * b) = 0 -> a = 0 /\ b = 0.
Proof.
  intro H. apply sqrt_eq_0 in H; [| nra]. split; nra.
Qed.

(** A hit at a distance that is not zero puts the player on the circle of
    radius [playerRadius + radius] around the collider. *)
Lemma collide_hit (pr : R) (p v : Vector3.t) (c : Collider.t) :
  overlaps pr p c = true -> horizontalDistance p c <> 0 ->
  let dx := Vector3.x p - Vector3.x (Collider.position c) in
  let dz := Vector3.z p - Vector3.z (Collider.position c) in
  let r := pr + Collider.radius c in
  let d := horizontalDistance p c in
  fst (collide pr (p, v) c)
  = Vector3.mk (Vector3.x (Collider.position c) + dx * (r / d))
               (Vector3.y p)
               (Vector3.z (Collider.position c) + dz * (r / d)).
Proof.
  unfold overlaps, horizontalDistance, collide. intros Ho Hd. cbv zeta.
  rewrite Ho, (orElse_nonzero _ _ Hd).
  match goal with
  | |- fst (if ?b then _ else _) = _ => destruct b
  end; cbn [fst]; f_equal; field; exact Hd.
Qed.

(** At distance zero the normal is the null vector and nothing moves. *)
Lemma collide_at_centre (pr : R) (p v : Vector3.t) (c : Collider.t) :
  Vector3.x p = Vector3.x (Collider.position c) ->
  Vector3.z p = Vector3.z (Collider.position c) ->
  collide pr (p, v) c = (p, v).
Proof.
  intros Hx Hz. unfold collide.
  replace (Vector3.x p - Vector3.x (Collider.position c)) with 0 by lra.
  replace (Vector3.z p - Vector3.z (Collider.position c)) with 0 by lra.
  destruct (ltb (0 * 0 + 0 * 0) _); [| reflexivity].
  replace (0 * 0 + 0 * 0) with 0 by ring. rewrite sqrt_0, orElse_zero.
  assert (E : ltb (Vector3.x v * (0 / 0.0001) + Vector3.z v * (0 / 0.0001)) 0
              = false) by (apply ltb_false; lra).
  rewrite E. f_equal. destruct p as [px py pz]. cbn [Vector3.x Vector3.y
  Vector3.z]. f_equal; lra.
Qed.

(** Away from the centre, the loop does separate the two circles. *)
Lemma collide_pushes_out (pr : R) (p v : Vector3.t) (c : Collider.t) :
  overlaps pr p c = true -> horizontalDistance p c <> 0 ->
  horizontalDistance (fst (collide pr (p, v) c)) c
  = Rabs (pr + Collider.radius c).
Proof.
  intros Ho Hd. rewrite (collide_hit pr p v c Ho Hd). cbv zeta.
  unfold horizontalDistance in *. cbn [Vector3.x Vector3.z].
  set (dx := Vector3.x p - Vector3.x (Collider.position c)) in *.
  set (dz := Vector3.z p - Vector3.z (Collider.position c)) in *.
  set (r := pr + Collider.radius c).
  set (d := sqrt (dx * dx + dz * dz)) in *.
  assert (Hdd : d * d = dx * dx + dz * dz) by (apply sqrt_sqrt; nra).
  rewrite <- (sqrt_Rsqr_abs r). f_equal. unfold Rsqr.
  replace ((Vector3.x (Collider.position c) + dx * (r / d)
            - Vector3.x (Collider.position c)) *
           (Vector3.x (Collider.position c) + dx * (r / d)
            - Vector3.x (Collider.position c)) +
           (Vector3.z (Collider.position c) + dz * (r / d)
            - Vector3.z (Collider.position c)) *
           (Vector3.z (Collider.position c) + dz * (r / d)
            - Vector3.z (Collider.position c)))
    with ((dx * dx + dz * dz) * (r * r) / (d * d)) by (field; exact Hd).
  rewrite <- Hdd. field. exact Hd.
Qed.

(** A position within [bound] of the origin on both horizontal axes. *)
Lemma collide_in_box (pr bound : R) (p v : Vector3.t) (c : Collider.t) :
  Rabs (Vector3.x (Collider.position c)) + Rabs (pr + Collider.radius c)
  <= bound ->
  Rabs (Vector3.z (Collider.position c)) + Rabs (pr + Collider.radius c)
  <= bound ->
  Rabs (Vector3.x p) <= bound -> Rabs (Vector3.z p) <= bound ->
  Rabs (Vector3.x (fst (collide pr (p, v) c))) <= bound /\
  Rabs (Vector3.z (fst (collide pr (p, v) c))) <= bound.
Proof.
  intros Hcx Hcz Hpx Hpz.
  destruct (overlaps pr p c) eqn:Ho;
    [| rewrite (collide_miss pr p v c Ho); split; assumption].
  destruct (Req_dec_T (horizontalDistance p c) 0) as [Hd | Hd].
  - apply hypot_zero in Hd. destruct Hd as [Hx Hz].
    rewrite collide_at_centre by lra. split; assumption.
  - rewrite (collide_hit pr p v c Ho Hd). cbv zeta. cbn [Vector3.x Vector3.z].
    unfold horizontalDistance in *.
    set (dx := Vector3.x p - Vector3.x (Collider.position c)) in *.
    set (dz := Vector3.z p - Vector3.z (Collider.position c)) in *.
    set (r := pr + Collider.radius c) in *.
    set (d := sqrt (dx * dx + dz * dz)) in *.
    assert (Hpos : 0 < d).
    { pose proof (sqrt_pos (dx * dx + dz * dz)). fold d in H. lra. }
    assert (Hdx : Rabs dx <= d) by apply abs_le_hypot.
    assert (Hdz : Rabs dz <= d).
    { unfold d. rewrite Rplus_comm. apply abs_le_hypot. }
    assert (push : forall e, Rabs e <= d -> Rabs (e * (r / d)) <= Rabs r).
    { intros e He. unfold Rdiv. rewrite <- Rmult_assoc.
      replace (e * r * / d) with (r * (e / d)) by (field; lra).
      rewrite Rabs_mult.
      assert (Rabs (e / d) <= 1).
      { unfold Rdiv. rewrite Rabs_mult, (Rabs_pos_eq (/ d)).
        - apply (Rmult_le_reg_r d); [exact Hpos |].
          rewrite Rmult_assoc, Rinv_l by lra. lra.
        - left. apply Rinv_0_lt_compat. exact Hpos. }
      pose proof (Rabs_pos r). nra. }
    split.
    + eapply Rle_trans; [apply Rabs_triang |].
      pose proof (push dx Hdx). lra.
    + eapply Rle_trans; [apply Rabs_triang |].
      pose proof (push dz Hdz). lra.
Qed.

Lemma treeCollisions_in_box (pr bound : R) (cs : list Collider.t) :
  Forall
    (fun c =>
       Rabs (Vector3.x (Collider.position c)) + Rabs (pr + Collider.radius c)
       <= bound /\
       Rabs (Vector3.z (Collider.position c)) + Rabs (pr + Collider.radius c)
       <= bound) cs ->
  forall p v,
    Rabs (Vector3.x p) <= bound -> Rabs (Vector3.z p) <= bound ->
    Rabs (Vector3.x (fst (treeCollisions pr cs (p, v)))) <= bound /\
    Rabs (Vector3.z (fst (treeCollisions pr cs (p, v)))) <= bound.
Proof.
  unfold treeCollisions.
  induction 1 as [| c cs [Hcx Hcz] _ IH]; intros p v Hx Hz; cbn [fold_left].
  - split; assumption.
  - destruct (collide_in_box pr bound p v c Hcx Hcz Hx Hz) as [Hx' Hz'].
    destruct (collide pr (p, v) c) as [p' v']. apply IH; assumption.
Qed.

(** ** The horizontal part of a frame *)

(** Lines 196 to 255, read off the state after the frame: the damped
    velocity is integrated, the position clamped to the world bounds and
    then handed to the collision loop. *)
Lemma update_horizontal (dt : R) (s : Controller) (tgt : Object3D.t) :
  target s = Some tgt ->
  exists accel py vy q,
    let dv := _desiredVel (fst (update dt s)) in
    let vx := damp (Vector3.x (velocity s)) (Vector3.x dv) accel dt in
    let vz := damp (Vector3.z (velocity s)) (Vector3.z dv) accel dt in
    let lo := - halfOf s + margin in
    let hi := halfOf s - margin in
    let px := clamp (Vector3.x (Object3D.position tgt) + vx * dt) lo hi in
    let pz := clamp (Vector3.z (Object3D.position tgt) + vz * dt) lo hi in
    let pv :=
      treeCollisions (playerRadius s) (collidersOf s)
        (Vector3.mk px py pz, Vector3.mk vx vy vz) in
    target (fst (update dt s)) = Some (Object3D.mk (fst pv) q) /\
    velocity (fst (update dt s)) = snd pv.
Proof.
  intro Ht. unfold update, halfOf, collidersOf. rewrite Ht.
  cbn [fst target velocity _desiredVel].
  do 4 eexists. split; reflexivity.
Qed.

(** ** C2: the world bounds *)



(** A frame of a character at rest with no movement key down: the position
    is clamped and handed to the collision loop as it is. *)
Lemma update_at_rest (dt : R) (s : Controller) (tgt : Object3D.t) :
  target s = Some tgt -> _up s = Vector3.mk 0 1 0 ->
  moveIntent (_keysDown s) = false ->
  Vector3.x (velocity s) = 0 -> Vector3.z (velocity s) = 0 ->
  exists py vy q,
    let lo := - halfOf s + margin in
    let hi := halfOf s - margin in
    let pv :=
      treeCollisions (playerRadius s) (collidersOf s)
        (Vector3.mk (clamp (Vector3.x (Object3D.position tgt)) lo hi) py
                    (clamp (Vector3.z (Object3D.position tgt)) lo hi),
         Vector3.mk 0 vy 0) in
    target (fst (update dt s)) = Some (Object3D.mk (fst pv) q).
Proof.
  intros Ht Hup Hidle Hvx Hvz.
  destruct (update_horizontal dt s tgt Ht) as (accel & py & vy & q & H).
  destruct (update_moveDir dt s tgt Ht Hup) as (f & _ & _ & _ & _ & Hd).
  rewrite Hidle in Hd. cbv zeta in H. destruct H as [H _].
  rewrite Hd, Hvx, Hvz in H. cbn [Vector3.multiplyScalar Vector3.x Vector3.z] in H.
  assert (rest : forall m, damp 0 (m * 0) accel dt = 0)
    by (intro m; unfold damp, MathUtils.lerp; ring).
  rewrite !rest in H.
  replace (Vector3.x (Object3D.position tgt) + 0 * dt)
    with (Vector3.x (Object3D.position tgt)) in H by ring.
  replace (Vector3.z (Object3D.position tgt) + 0 * dt)
    with (Vector3.z (Object3D.position tgt)) in H by ring.
  exists py, vy, q. exact H.
Qed.

Lemma no_keys_no_intent : moveIntent (empty_set string) = false.
Proof.
  unfold moveIntent, xInputOf, zInputOf. simpl.
  assert (E : eqb (0 + 0) 0 = true) by (apply eqb_true; lra).
  rewrite E. reflexivity.
Qed.


(** ** C3: a player at the centre of a collider *)

(** C3 at the input where it fails.  The player root of [loadPlayer] stands
    at the centre of a tree of radius 1; the circles overlap, the distance
    being 0 and the radii adding up to 1.55.  After a frame the distance is
    still 0: the fallback replaces the distance by 0.0001, the normal stays
    the null vector and the push moves nothing. *)
Theorem centre_overlap_is_not_resolved :
  let s := constructor centre_options in
  overlaps (playerRadius s) (Vector3.mk 0 0 0) centre_tree = true /\
  exists tgt',
    target (fst (update (1 / 60) s)) = Some tgt' /\
    horizontalDistance (Object3D.position tgt') centre_tree = 0 /\
    0 < playerRadius s + Collider.radius centre_tree.
Proof.
  intro s. split.
  { unfold overlaps, centre_tree. simpl. apply ltb_true. lra. }
  destruct (update_at_rest (1 / 60) s
              (Object3D.mk (Vector3.mk 0 0 0) Quaternion.identity))
    as (py & vy & q & H); try reflexivity.
  { apply no_keys_no_intent. }
  cbv zeta in H. eexists. split; [exact H |].
  cbn [Object3D.position].
  change (halfOf s) with 260. change (collidersOf s) with [centre_tree].
  change (playerRadius s) with 0.55.
  cbn [Object3D.position Vector3.x Vector3.z].
  rewrite (clamp_inside 0) by (unfold margin; lra).
  unfold treeCollisions. cbn [fold_left].
  rewrite collide_at_centre by reflexivity. cbn [fst].
  split.
  - unfold horizontalDistance, centre_tree. simpl.
    replace ((0 - 0) * (0 - 0) + (0 - 0) * (0 - 0)) with 0 by ring.
    apply sqrt_0.
  - unfold centre_tree. simpl. lra.
Qed.

(** ** C1: the movement callback *)

(** The constructor does not read [onMovementChange]. *)
Lemma constructor_ignores_onMovementChange (o : Options)
    (cb : option (Callback bool)) :
  constructor
    {| opt_camera := opt_camera o; opt_target := opt_target o;
       opt_environment := opt_environment o;
       opt_targetHeight := opt_targetHeight o;
       opt_playerRadius := opt_playerRadius o;
       opt_onJump := opt_onJump o; opt_onMovementChange := cb |}
  = constructor o.
Proof. reflexivity. Qed.

(** Whatever a run calls is the jump callback. *)
Lemma step_effects (s : Controller) (i : Input) (e : Effect) :
  In e (snd (step s i)) -> exists f, onJump s = Some f /\ In e (f tt).
Proof.
  destruct (isFrame i) eqn:E.
  - destruct i; try discriminate. simpl.
    destruct (target s) as [tgt |] eqn:Ht.
    + destruct (update_vertical dt s tgt Ht) as (_ & _ & _ & _ & H).
      rewrite H. destruct (onGround s && _jumpRequested s);
        [| intros []].
      destruct (onJump s) as [f |]; [| intros []].
      intro Hin. exists f. split; [reflexivity | exact Hin].
    + rewrite (update_no_target dt s Ht). intros [].
  - destruct (handlers_physics s i E) as (_ & _ & _ & _ & H).
    rewrite H. intros [].
Qed.

Lemma run_effects (inputs : list Input) :
  forall s e,
    In e (snd (run s inputs)) -> exists f, onJump s = Some f /\ In e (f tt).
Proof.
  induction inputs as [| i rest IH]; intros s e; [intros [] |].
  simpl.
  pose proof (step_effects s i e) as Hstep.
  pose proof (step_same_config s i) as (_ & Hj & _).
  destruct (step s i) as [s1 o1].
  pose proof (IH s1 e) as Hrest.
  destruct (run s1 rest) as [s2 o2]. simpl in *.
  intro Hin. apply in_app_or in Hin. destruct Hin as [Hin | Hin].
  - apply Hstep, Hin.
  - destruct (Hrest Hin) as (f & Hf & Hin'). exists f.
    rewrite <- Hj. split; assumption.
Qed.

(** After a frame [_moveDir] is a unit vector if there is move intent, and
    the null vector if there is none. *)
Lemma moveDir_after_frame (o : Options) (s : Controller) (dt : R) :
  Reachable o s -> target s <> None ->
  Vector3.lengthSq (_moveDir (fst (update dt s)))
  = (if moveIntent (_keysDown s) then 1 else 0).
Proof.
  intros Hreach Ht. destruct (moveIntent (_keysDown s)) eqn:Hmove.
  - apply (desiredVel_speed o s dt Hreach Ht Hmove).
  - destruct (target s) as [tgt |] eqn:Etgt; [| contradiction].
    pose proof (reachable_config o s Hreach) as Hc.
    assert (Eup : _up s = Vector3.mk 0 1 0).
    { destruct Hc as (_ & _ & _ & _ & _ & _ & _ & _ & _ & _ & _ & _ & _ & _ & E).
      exact E. }
    destruct (update_moveDir dt s tgt Etgt Eup) as (f & Hy & Hl & _ & Hm & _).
    rewrite Hmove in Hm. rewrite Hm, (rawMoveDir_lengthSq f _ _ Hy Hl).
    unfold moveIntent in Hmove. apply orb_false_iff in Hmove.
    destruct Hmove as [Hx Hz].
    apply negb_false_iff, eqb_true in Hx. apply negb_false_iff, eqb_true in Hz.
    rewrite Hx, Hz. ring.
Qed.

Lemma state_after_nil (s : Controller) : state_after s [] = s.
Proof. reflexivity. Qed.

Lemma keysDown_onKeyDown (e : KeyboardEvent) (s : Controller) :
  _keysDown (_onKeyDown e s) = set_add string_dec (code e) (_keysDown s).
Proof. unfold _onKeyDown. destruct (_ && _); reflexivity. Qed.

Lemma keysDown_onKeyUp (e : KeyboardEvent) (s : Controller) :
  _keysDown (_onKeyUp e s) = set_remove string_dec (code e) (_keysDown s).
Proof. reflexivity. Qed.

(** Without a request and without a press of the jump key a run calls
    nothing. *)
Lemma run_silent (inputs : list Input) :
  forall s,
    _jumpRequested s = false ->
    forallb (fun i => negb (isJumpPress i)) inputs = true ->
    snd (run s inputs) = [].
Proof.
  induction inputs as [| i rest IH]; intros s Hr Hp; [reflexivity |].
  simpl in Hp. apply andb_true_iff in Hp. destruct Hp as [Hi Hrest].
  apply negb_true_iff in Hi.
  assert (Hstep : snd (step s i) = [] /\
                  _jumpRequested (fst (step s i)) = false).
  { destruct (isFrame i) eqn:E.
    - destruct i; try discriminate. simpl.
      destruct (target s) as [tgt |] eqn:Ht.
      + destruct (update_vertical dt s tgt Ht) as (_ & _ & _ & H4 & H5).
        rewrite H4, H5, Hr, andb_false_r. split; reflexivity.
      + rewrite (update_no_target dt s Ht). split; [reflexivity | exact Hr].
    - destruct (handlers_physics s i E) as (_ & _ & _ & _ & H).
      rewrite H, (handlers_jumpRequested s i E Hi). split; [reflexivity | exact Hr]. }
  destruct Hstep as [H1 H2]. specialize (IH (fst (step s i)) H2 Hrest).
  simpl. destruct (step s i) as [s1 o1]. simpl in *.
  destruct (run s1 rest) as [s2 o2]. simpl in *. subst. reflexivity.
Qed.

(** Unrolls a run over a list of inputs that is written out. *)
Ltac unroll :=
  rewrite !state_after_cons, state_after_nil; cbn [step fst]; reflexivity.

(** C1 at the input where it fails.  The controller is built from the
    options of [loadPlayer], whose [onMovementChange] starts and fades the
    walk clip.  Over an idle frame, a frame with W down and a frame after W
    is released, [_moveDir] goes from null to unit length and back: the
    character starts and stops moving.  The run calls nothing, and no run
    calls anything but the jump callback. *)
Theorem onMovementChange_is_never_called :
  let o := loadPlayer_options (Vector3.mk 0 0 0) (field_environment []) in
  let w := mkKeyboardEvent "KeyW" false in
  let dt := 1 / 60 in
  let inputs := [Frame dt; KeyDown w; Frame dt; KeyUp w; Frame dt] in
  opt_onMovementChange o = Some player_onMovementChange /\
  Vector3.lengthSq (_moveDir (state_after (constructor o) [Frame dt])) = 0 /\
  Vector3.lengthSq
    (_moveDir (state_after (constructor o) [Frame dt; KeyDown w; Frame dt]))
  = 1 /\
  Vector3.lengthSq (_moveDir (state_after (constructor o) inputs)) = 0 /\
  snd (run (constructor o) inputs) = [] /\
  (forall any e,
     In e (snd (run (constructor o) any)) -> e = PlayAnimation "jump" false).
Proof.
  intros o w dt inputs.
  set (s0 := constructor o).
  set (s1 := fst (update dt s0)).
  set (s2 := _onKeyDown w s1).
  set (s3 := fst (update dt s2)).
  set (s4 := _onKeyUp w s3).
  assert (E1 : state_after s0 [Frame dt] = s1) by unroll.
  assert (E2 : state_after s0 [Frame dt; KeyDown w] = s2) by unroll.
  assert (E3 : state_after s0 [Frame dt; KeyDown w; Frame dt] = s3) by unroll.
  assert (E4 : state_after s0 [Frame dt; KeyDown w; Frame dt; KeyUp w] = s4)
    by unroll.
  assert (E5 : state_after s0 inputs = fst (update dt s4))
    by (unfold inputs; unroll).
  assert (R0 : Reachable o s0) by (exists []; reflexivity).
  assert (R2 : Reachable o s2) by (eexists; symmetry; exact E2).
  assert (R4 : Reachable o s4) by (eexists; symmetry; exact E4).
  assert (T0 : target s0 <> None) by discriminate.
  assert (T2 : target s2 <> None).
  { rewrite <- E2. intro H.
    apply (run_target_presence [Frame dt; KeyDown w] s0) in H.
    exact (T0 H). }
  assert (T4 : target s4 <> None).
  { rewrite <- E4. intro H.
    apply (run_target_presence [Frame dt; KeyDown w; Frame dt; KeyUp w] s0)
      in H.
    exact (T0 H). }
  assert (K2 : _keysDown s2 = ["KeyW"]%string).
  { unfold s2. rewrite keysDown_onKeyDown. unfold s1.
    rewrite (update_keysDown dt s0 _ eq_refl). reflexivity. }
  assert (K4 : _keysDown s4 = []).
  { unfold s4. rewrite keysDown_onKeyUp. unfold s3.
    destruct (target s2) as [t2 |] eqn:Et2; [| contradiction].
    rewrite (update_keysDown dt s2 t2 Et2), K2. reflexivity. }
  assert (M2 : moveIntent ["KeyW"%string] = true).
  { unfold moveIntent, xInputOf, zInputOf. simpl.
    assert (E : eqb (1 + 0) 0 = false) by (apply eqb_false; lra).
    rewrite E. apply orb_true_r. }
  split; [reflexivity |]. split; [| split; [| split; [| split]]].
  - rewrite E1. unfold s1. rewrite (moveDir_after_frame o s0 dt R0 T0).
    change (_keysDown s0) with (empty_set string).
    rewrite no_keys_no_intent. reflexivity.
  - rewrite E3. unfold s3. rewrite (moveDir_after_frame o s2 dt R2 T2).
    rewrite K2, M2. reflexivity.
  - rewrite E5. rewrite (moveDir_after_frame o s4 dt R4 T4).
    rewrite K4. change (@nil string) with (empty_set string).
    rewrite no_keys_no_intent. reflexivity.
  - apply run_silent; reflexivity.
  - intros any e Hin. destruct (run_effects any s0 e Hin) as (f & Hf & He).
    injection Hf as <-. destruct He as [He | []]. symmetry. exact He.
Qed.

(** * Further properties of the controller *)

(** ** Damping over split frames *)

(** X1: damping is frame-rate independent: two steps of [dt1] and [dt2]
    towards the same target give what one step of [dt1 + dt2] gives. *)
Theorem damp_splits_frames (current goal lambda dt1 dt2 : R) :
  damp (damp current goal lambda dt1) goal lambda dt2
  = damp current goal lambda (dt1 + dt2).
Proof.
  rewrite !damp_formula. unfold damp_spec.
  replace (- lambda * (dt1 + dt2)) with (- lambda * dt1 + - lambda * dt2)
    by ring.
  rewrite exp_plus. ring.
Qed.

(** ** The key set *)

Lemma has_true_iff (k : string) (keys : set string) :
  has k keys = true <-> set_In k keys.
Proof.
  unfold has. split.
  - apply set_mem_correct1.
  - apply set_mem_correct2.
Qed.

Lemma has_add (k c : string) (keys : set string) :
  has k (set_add string_dec c keys)
  = if String.eqb c k then true else has k keys.
Proof.
  destruct (String.eqb_spec c k) as [-> | Hne].
  - apply has_true_iff, set_add_intro2. reflexivity.
  - destruct (has k keys) eqn:E.
    + apply has_true_iff, set_add_intro1, has_true_iff, E.
    + destruct (has k (set_add string_dec c keys)) eqn:E'; [| reflexivity].
      apply has_true_iff, set_add_elim in E'. destruct E' as [E' | E'].
      * congruence.
      * apply has_true_iff in E'. congruence.
Qed.

Lemma has_remove (k c : string) (keys : set string) :
  NoDup keys ->
  has k (set_remove string_dec c keys)
  = if String.eqb c k then false else has k keys.
Proof.
  intro Hnd.
  destruct (has k (set_remove string_dec c keys)) eqn:E.
  - apply has_true_iff, (set_remove_iff string_dec _ _ Hnd) in E.
    destruct E as [Hin Hne].
    destruct (String.eqb_spec c k) as [-> | _]; [contradiction |].
    symmetry. apply has_true_iff, Hin.
  - destruct (String.eqb_spec c k) as [-> | Hne]; [reflexivity |].
    destruct (has k keys) eqn:E'; [| reflexivity].
    apply has_true_iff in E'.
    assert (Hin : set_In k (set_remove string_dec c keys)).
    { apply (set_remove_iff string_dec _ _ Hnd).
      split; [exact E' | congruence]. }
    apply has_true_iff in Hin. congruence.
Qed.

Lemma step_keysDown_nodup (s : Controller) (i : Input) :
  NoDup (_keysDown s) -> NoDup (_keysDown (fst (step s i))).
Proof.
  intro H. destruct i; cbn [step fst];
    try (handler_cases; exact H).
  - rewrite keysDown_onKeyDown. apply set_add_nodup, H.
  - rewrite keysDown_onKeyUp. apply set_remove_nodup, H.
  - destruct (target s) as [tgt |] eqn:Ht.
    + rewrite (update_keysDown dt s tgt Ht). exact H.
    + rewrite (update_no_target dt s Ht). exact H.
Qed.

Lemma step_has (k : string) (s : Controller) (i : Input) :
  NoDup (_keysDown s) ->
  has k (_keysDown (fst (step s i))) = heldAfter k [i] (has k (_keysDown s)).
Proof.
  intro H. destruct i; cbn [step fst heldAfter fold_left];
    try (handler_cases; reflexivity).
  - rewrite keysDown_onKeyDown. apply has_add.
  - rewrite keysDown_onKeyUp. apply has_remove, H.
  - destruct (target s) as [tgt |] eqn:Ht.
    + rewrite (update_keysDown dt s tgt Ht). reflexivity.
    + rewrite (update_no_target dt s Ht). reflexivity.
Qed.

Lemma run_has (k : string) (inputs : list Input) :
  forall s,
    NoDup (_keysDown s) ->
    NoDup (_keysDown (state_after s inputs)) /\
    has k (_keysDown (state_after s inputs))
    = heldAfter k inputs (has k (_keysDown s)).
Proof.
  induction inputs as [| i rest IH]; intros s H.
  - split; [exact H | reflexivity].
  - rewrite state_after_cons.
    destruct (IH _ (step_keysDown_nodup s i H)) as [H1 H2].
    split; [exact H1 |]. rewrite H2, (step_has k s i H). reflexivity.
Qed.

(** X2: in every reachable state the key set holds each key at most once,
    and a key is in it exactly when the last event of that key was a
    key-down: a release always takes the key out, whatever the number of
    (repeated) key-downs before it. *)
Theorem keysDown_tracks_keyboard (o : Options) (inputs : list Input)
    (k : string) :
  NoDup (_keysDown (state_after (constructor o) inputs)) /\
  has k (_keysDown (state_after (constructor o) inputs))
  = heldAfter k inputs false.
Proof.
  apply (run_has k inputs (constructor o)). constructor.
Qed.

(** ** Pointer drags *)

Lemma last_cons_default {A : Type} (l : list A) :
  forall a d, List.last (a :: l) d = List.last l a.
Proof.
  induction l as [| b l IH]; intros a d; [reflexivity |].
  change (List.last (a :: b :: l) d) with (List.last (b :: l) d).
  rewrite !IH. reflexivity.
Qed.

(** Moves of the dragging pointer: the yaw follows the pointer's x. *)
Lemma drag_moves_yaw (p : Z) (es : list PointerEvent) :
  forall s last,
    _dragging s = true -> _pointerId s = Some p ->
    clientX last = _lastPointerX s ->
    Forall (fun e => pointerId e = p) es ->
    let s' := state_after s (map PointerMove es) in
    yaw s' = yaw s - (clientX (List.last es last) - _lastPointerX s) * rotateSpeed /\
    _lastPointerX s' = clientX (List.last es last) /\
    _dragging s' = true /\ _pointerId s' = Some p.
Proof.
  induction es as [| e es IH]; intros s last Hd Hp Hl Hall.
  - cbn [map List.last]. rewrite state_after_nil, Hl.
    repeat split; auto. ring.
  - inversion Hall as [| ? ? He Hrest]; subst.
    cbn [map]. rewrite state_after_cons. cbn [step fst].
    assert (Hmove : _onPointerMove e s
                    = set_phi (clamp (phi s + (clientY e - _lastPointerY s) * rotateSpeed)
                                 (minPhi s) (maxPhi s))
                        (set_yaw (yaw s - (clientX e - _lastPointerX s) * rotateSpeed)
                           (set_lastPointerY (clientY e)
                              (set_lastPointerX (clientX e) s)))).
    { unfold _onPointerMove, otherPointer. rewrite Hd, Hp, Z.eqb_refl.
      reflexivity. }
    destruct (IH (_onPointerMove e s) e) as (H1 & H2 & H3 & H4);
      try (rewrite Hmove; cbn; auto; fail); [exact Hrest |].
    cbv zeta.
    rewrite last_cons_default.
    rewrite H1, H2. repeat split; auto.
    rewrite Hmove. cbn [yaw _lastPointerX set_phi set_yaw set_lastPointerY
                        set_lastPointerX]. ring.
Qed.

(** X3: a drag turns the camera by the pointer's net horizontal travel:
    after the primary button goes down at [e0] and the same pointer moves
    through [es], the yaw has changed by [-0.0042] times the distance from
    the x of [e0] to the x of the last move, whatever the path between. *)
Theorem drag_yaw_follows_pointer (s : Controller) (e0 : PointerEvent)
    (es : list PointerEvent) :
  button e0 = 0%Z ->
  Forall (fun e => pointerId e = pointerId e0) es ->
  yaw (state_after s (PointerDown e0 :: map PointerMove es))
  = yaw s - (clientX (List.last es e0) - clientX e0) * rotateSpeed.
Proof.
  intros Hb Hall. rewrite state_after_cons. cbn [step fst].
  assert (Hdown : _onPointerDown e0 s
                  = set_lastPointerY (clientY e0)
                      (set_lastPointerX (clientX e0)
                         (set_pointerId (Some (pointerId e0))
                            (set_dragging true s)))).
  { unfold _onPointerDown. rewrite Hb. reflexivity. }
  destruct (drag_moves_yaw (pointerId e0) es (_onPointerDown e0 s) e0)
    as (H & _); try (rewrite Hdown; reflexivity); [exact Hall |].
  cbv zeta in H. rewrite H, Hdown. reflexivity.
Qed.

(** The theorem for a drag from x = 400 over x = 650 back to x = 500. *)
Lemma drag_yaw_follows_pointer_witness :
  let s :=
    constructor (loadPlayer_options (Vector3.mk 0 0 0) (field_environment []))
  in
  yaw (state_after s
         (PointerDown (mkPointerEvent 0 1 400 300)
          :: map PointerMove
               [mkPointerEvent 0 1 650 310; mkPointerEvent 0 1 500 290]))
  = 0 - (500 - 400) * rotateSpeed.
Proof.
  intro s.
  apply (drag_yaw_follows_pointer s (mkPointerEvent 0 1 400 300)
           [mkPointerEvent 0 1 650 310; mkPointerEvent 0 1 500 290]).
  - reflexivity.
  - repeat constructor.
Defined.

Lemma step_drag_consistent (s : Controller) (i : Input) :
  drag_consistent s -> drag_consistent (fst (step s i)).
Proof.
  unfold drag_consistent. intros [H1 H2].
  destruct i; cbn [step fst];
    try (unfold _onKeyDown, _onKeyUp, _onWheel;
         repeat match goal with
         | |- context [if ?b then _ else _] => destruct b
         end; simpl; split; assumption).
  - unfold _onPointerDown. destruct (negb _); simpl;
      [split; assumption | split; discriminate].
  - unfold _onPointerMove. destruct (negb _); [split; assumption |].
    destruct (otherPointer e s); simpl; split; assumption.
  - unfold _onPointerUp. destruct (otherPointer e s); simpl;
      [split; assumption | split; reflexivity].
  - unfold _onPointerUp. destruct (otherPointer e s); simpl;
      [split; assumption | split; reflexivity].
  - destruct (target s) as [tgt |] eqn:Ht.
    + unfold update. rewrite Ht. simpl. split; assumption.
    + rewrite (update_no_target dt s Ht). split; assumption.
Qed.

Lemma run_drag_consistent (inputs : list Input) :
  forall s, drag_consistent s -> drag_consistent (state_after s inputs).
Proof.
  induction inputs as [| i rest IH]; intros s H; [exact H |].
  rewrite state_after_cons. apply IH, step_drag_consistent, H.
Qed.

Lemma set_pointerId_same (s : Controller) :
  set_pointerId (_pointerId s) (set_dragging (_dragging s) s) = s.
Proof. destruct s. reflexivity. Qed.

Lemma idle_pointer_step (s : Controller) (i : Input) :
  _dragging s = false -> _pointerId s = None ->
  isIdlePointerInput i = true -> fst (step s i) = s.
Proof.
  intros Hd Hp Hi. destruct i; try discriminate; cbn [step fst].
  - unfold _onPointerDown. simpl in Hi. rewrite Hi. reflexivity.
  - unfold _onPointerMove. rewrite Hd. reflexivity.
  - unfold _onPointerUp, otherPointer. rewrite Hp.
    rewrite <- Hd, <- Hp. apply set_pointerId_same.
  - unfold _onPointerUp, otherPointer. rewrite Hp.
    rewrite <- Hd, <- Hp. apply set_pointerId_same.
Qed.

(** X4: outside a drag the pointer does nothing.  In a reachable state that
    is not dragging, any list of pointer moves, releases, cancels and
    presses of buttons other than the primary one leaves every field of the
    controller as it is. *)
Theorem pointer_ignored_outside_drag (o : Options) (s : Controller)
    (inputs : list Input) :
  Reachable o s -> _dragging s = false ->
  forallb isIdlePointerInput inputs = true ->
  state_after s inputs = s.
Proof.
  intros [before ->] Hd Hall.
  assert (Hc : drag_consistent (state_after (constructor o) before)).
  { apply run_drag_consistent. split; reflexivity. }
  set (s := state_after (constructor o) before) in *.
  assert (Hp : _pointerId s = None) by (apply Hc, Hd).
  clearbody s. clear Hc.
  induction inputs as [| i rest IH]; [reflexivity |].
  simpl in Hall. apply andb_true_iff in Hall. destruct Hall as [Hi Hrest].
  rewrite state_after_cons, (idle_pointer_step s i Hd Hp Hi). apply IH, Hrest.
Qed.

(** The theorem after a finished drag: a right click, a move and a release
    change nothing. *)
Lemma pointer_ignored_outside_drag_witness :
  let o := loadPlayer_options (Vector3.mk 0 0 0) (field_environment []) in
  let s :=
    state_after (constructor o)
      [PointerDown (mkPointerEvent 0 1 400 300);
       PointerUp (mkPointerEvent 0 1 400 300)] in
  state_after s
    [PointerDown (mkPointerEvent 2 1 10 10);
     PointerMove (mkPointerEvent 2 1 90 90);
     PointerUp (mkPointerEvent 2 1 90 90)]
  = s.
Proof.
  intros o s.
  apply (pointer_ignored_outside_drag o s).
  - eexists. reflexivity.
  - reflexivity.
  - reflexivity.
Defined.

(** ** The zoom wheel *)

Lemma clamp_lower_bound (v lo hi : R) : Rmin hi v <= clamp v lo hi.
Proof. unfold clamp. apply Rmax_r. Qed.

Lemma set_distance_same (s : Controller) : set_distance (distance s) s = s.
Proof. destruct s. reflexivity. Qed.

Lemma wheel_up_distance (ws : list WheelEvent) :
  forall s,
    Forall (fun e => 0 < deltaY e) ws ->
    Rmin (maxDistance s) (distance s + 0.85 * INR (List.length ws))
    <= distance (state_after s (map Wheel ws)) /\
    maxDistance (state_after s (map Wheel ws)) = maxDistance s.
Proof.
  induction ws as [| e ws IH]; intros s Hall.
  - simpl. split; [| reflexivity].
    replace (distance s + 0.85 * 0) with (distance s) by ring. apply Rmin_r.
  - inversion Hall as [| ? ? He Hrest]; subst.
    cbn [map]. rewrite state_after_cons. cbn [step fst].
    destruct (IH (_onWheel e s) Hrest) as [IH1 IH2].
    assert (Hm : maxDistance (_onWheel e s) = maxDistance s) by reflexivity.
    assert (Hd : Rmin (maxDistance s) (distance s + 0.85)
                 <= distance (_onWheel e s)).
    { unfold _onWheel. cbn [distance set_distance]. unfold sign.
      assert (E0 : ltb 0 (deltaY e) = true) by (apply ltb_true; lra).
      rewrite E0.
      replace (distance s + 1 * 0.85) with (distance s + 0.85) by ring.
      apply clamp_lower_bound. }
    rewrite Hm in *. split; [| exact IH2].
    eapply Rle_trans; [| exact IH1].
    change (List.length (e :: ws)) with (S (List.length ws)). rewrite S_INR.
    pose proof (pos_INR (List.length ws)) as Hn.
    revert Hd. unfold Rmin.
    repeat match goal with
    | |- context [Rle_dec ?a ?b] => destruct (Rle_dec a b)
    end; intros; lra.
Qed.

(** X5: zooming out mirrors zooming in.  From a reachable state, seventeen
    or more wheel-up ticks leave the distance at exactly [maxDistance]; a
    wheel event with [deltaY = 0] leaves the whole controller as it is; and
    no wheel event moves the distance by more than one step of 0.85,
    however large its [deltaY]. *)
Theorem wheel_zoom_steps (o : Options) (s : Controller) :
  Reachable o s ->
  (forall ws,
     Forall (fun e => 0 < deltaY e) ws -> (17 <= List.length ws)%nat ->
     distance (state_after s (map Wheel ws)) = maxDistance s) /\
  (forall e, deltaY e = 0 -> _onWheel e s = s) /\
  (forall e, Rabs (distance (_onWheel e s) - distance s) <= 0.85).
Proof.
  intro Hreach.
  pose proof (reachable_orbit_ok o s Hreach) as [_ Hdist].
  pose proof (reachable_config o s Hreach)
    as (_ & _ & _ & _ & _ & _ & _ & _ & _ & E3 & E4 & _).
  simpl in E3, E4.
  split; [| split].
  - intros ws Hall Hlen.
    destruct (wheel_up_distance ws s Hall) as [Hlow Hmax].
    destruct (reachable_orbit_ok o _ (reachable_more o s (map Wheel ws) Hreach))
      as [_ [_ Hup]].
    rewrite Hmax in Hup.
    apply le_INR in Hlen.
    replace (INR 17) with 17 in Hlen by (simpl; ring).
    assert (Hr : Rmin (maxDistance s)
                   (distance s + 0.85 * INR (List.length ws))
                 = maxDistance s) by (apply Rmin_left; lra).
    rewrite Hr in Hlow. lra.
  - intros e He. unfold _onWheel, sign. rewrite He.
    assert (E0 : ltb 0 0 = false) by (apply ltb_false; lra).
    rewrite E0.
    replace (distance s + 0 * 0.85) with (distance s) by ring.
    rewrite clamp_inside by lra. apply set_distance_same.
  - intro e. unfold _onWheel. cbn [distance set_distance].
    assert (Hs : -1 <= sign (deltaY e) <= 1).
    { unfold sign. destruct (ltb 0 (deltaY e)) eqn:E'; [lra |].
      destruct (ltb (deltaY e) 0) eqn:E; [lra |].
      apply ltb_false in E. apply ltb_false in E'. lra. }
    set (k := sign (deltaY e)) in *. clearbody k.
    set (v := distance s + k * 0.85).
    assert (Hv : distance s - 0.85 <= v <= distance s + 0.85)
      by (unfold v; lra).
    clearbody v.
    apply Rabs_le. unfold clamp, Rmin.
    destruct (Rle_dec (maxDistance s) v); unfold Rmax;
      destruct (Rle_dec (minDistance s) _); lra.
Qed.

(** The theorem for the player of [loadPlayer], zooming out all the way. *)
Lemma wheel_zoom_steps_witness :
  let o := loadPlayer_options (Vector3.mk 0 0 0) (field_environment []) in
  let s := constructor o in
  distance (state_after s (map Wheel (List.repeat (mkWheelEvent 120) 17)))
  = maxDistance s.
Proof.
  intros o s.
  destruct (wheel_zoom_steps o s) as (H & _).
  { exists []. reflexivity. }
  apply H.
  - repeat constructor; simpl; lra.
  - simpl. lia.
Defined.

(** ** Velocity in a collision *)

Lemma hit_normal_unit (a b : R) :
  sqrt (a * a + b * b) <> 0 ->
  (a / sqrt (a * a + b * b)) * (a / sqrt (a * a + b * b))
  + (b / sqrt (a * a + b * b)) * (b / sqrt (a * a + b * b)) = 1.
Proof.
  intro Hd. set (d := sqrt (a * a + b * b)) in *.
  assert (Hdd : d * d = a * a + b * b) by (apply sqrt_sqrt; nra).
  replace (a / d * (a / d) + b / d * (b / d))
    with ((a * a + b * b) / (d * d)) by (field; exact Hd).
  rewrite <- Hdd. field. exact Hd.
Qed.

(** The velocity after the loop body, for a hit with normal [(nx, nz)]. *)
Lemma collide_hit_velocity (pr : R) (p v : Vector3.t) (c : Collider.t) :
  overlaps pr p c = true -> horizontalDistance p c <> 0 ->
  let nx := (Vector3.x p - Vector3.x (Collider.position c))
            / horizontalDistance p c in
  let nz := (Vector3.z p - Vector3.z (Collider.position c))
            / horizontalDistance p c in
  let vn := Vector3.x v * nx + Vector3.z v * nz in
  snd (collide pr (p, v) c)
  = if ltb vn 0
    then Vector3.mk (Vector3.x v - vn * nx) (Vector3.y v)
                    (Vector3.z v - vn * nz)
    else v.
Proof.
  unfold overlaps, horizontalDistance, collide. intros Ho Hd. cbv zeta.
  rewrite Ho, (orElse_nonzero _ _ Hd).
  destruct (ltb _ 0); reflexivity.
Qed.

(** X6: a collision takes away the velocity into the collider and nothing
    else.  For a hit at a distance that is not zero, with [n] the unit
    normal from the collider to the player: the component of the new
    velocity along [n] is the old one if that pointed away and 0 if it
    pointed in, the component along the tangent is the old one, and the
    vertical component is untouched. *)
Theorem collision_keeps_sliding (pr : R) (p v : Vector3.t) (c : Collider.t) :
  overlaps pr p c = true -> horizontalDistance p c <> 0 ->
  let nx := (Vector3.x p - Vector3.x (Collider.position c))
            / horizontalDistance p c in
  let nz := (Vector3.z p - Vector3.z (Collider.position c))
            / horizontalDistance p c in
  let v' := snd (collide pr (p, v) c) in
  nx * nx + nz * nz = 1 /\
  Vector3.x v' * nx + Vector3.z v' * nz
  = Rmax (Vector3.x v * nx + Vector3.z v * nz) 0 /\
  Vector3.x v' * (- nz) + Vector3.z v' * nx
  = Vector3.x v * (- nz) + Vector3.z v * nx /\
  Vector3.y v' = Vector3.y v.
Proof.
  intros Ho Hd nx nz v'.
  assert (Hn : nx * nx + nz * nz = 1).
  { unfold nx, nz, horizontalDistance in *. apply hit_normal_unit. exact Hd. }
  split; [exact Hn |].
  unfold v'. rewrite (collide_hit_velocity pr p v c Ho Hd). cbv zeta.
  fold nx nz. set (vn := Vector3.x v * nx + Vector3.z v * nz).
  destruct (ltb vn 0) eqn:E.
  - apply ltb_true in E. cbn [Vector3.x Vector3.y Vector3.z].
    rewrite Rmax_right by lra.
    split; [| split; [| reflexivity]].
    + replace ((Vector3.x v - vn * nx) * nx + (Vector3.z v - vn * nz) * nz)
        with (vn - vn * (nx * nx + nz * nz)) by (unfold vn; ring).
      rewrite Hn. ring.
    + ring.
  - apply ltb_false in E. rewrite Rmax_left by lra.
    repeat split; reflexivity.
Qed.

(** The theorem for a player running east into the tree to its east. *)
Lemma collision_keeps_sliding_witness :
  let p := Vector3.mk 6 0 0 in
  let v := Vector3.mk 4 0 3 in
  let v' := snd (collide 0.55 (p, v) edge_tree) in
  Vector3.x v' * (-1) = Rmax (4 * (-1) + 3 * 0) 0 /\
  Vector3.z v' * (-1) = 3 * (-1).
Proof.
  intros p v v'.
  assert (Hd : horizontalDistance p edge_tree = 1).
  { unfold horizontalDistance, edge_tree, p. simpl.
    replace ((6 - 7) * (6 - 7) + (0 - 0) * (0 - 0)) with 1 by ring.
    apply sqrt_1. }
  destruct (collision_keeps_sliding 0.55 p v edge_tree) as (_ & H1 & H2 & _).
  - unfold overlaps, edge_tree, p. simpl. apply ltb_true. lra.
  - rewrite Hd. lra.
  - cbv zeta in H1, H2. rewrite Hd in H1, H2. fold v' in H1, H2.
    unfold edge_tree, p, v in H1, H2. simpl in H1, H2.
    replace ((6 - 7) / 1) with (-1) in H1, H2 by lra.
    replace ((0 - 0) / 1) with 0 in H1, H2 by lra.
    split; lra.
Defined.

(** A collision never speeds the character up. *)
Lemma collide_speed (pr : R) (p v : Vector3.t) (c : Collider.t) :
  speedSq (snd (collide pr (p, v) c)) <= speedSq v.
Proof.
  destruct (overlaps pr p c) eqn:Ho;
    [| rewrite (collide_miss pr p v c Ho); apply Rle_refl].
  destruct (Req_dec_T (horizontalDistance p c) 0) as [Hd | Hd].
  - apply hypot_zero in Hd. destruct Hd as [Hx Hz].
    rewrite collide_at_centre by lra. apply Rle_refl.
  - rewrite (collide_hit_velocity pr p v c Ho Hd). cbv zeta.
    pose proof (hit_normal_unit _ _ Hd) as Hn.
    fold (horizontalDistance p c) in Hn.
    set (nx := (Vector3.x p - Vector3.x (Collider.position c))
               / horizontalDistance p c) in *.
    set (nz := (Vector3.z p - Vector3.z (Collider.position c))
               / horizontalDistance p c) in *.
    set (vn := Vector3.x v * nx + Vector3.z v * nz).
    destruct (ltb vn 0); [| apply Rle_refl].
    unfold speedSq. cbn [Vector3.x Vector3.z].
    replace ((Vector3.x v - vn * nx) * (Vector3.x v - vn * nx)
             + (Vector3.z v - vn * nz) * (Vector3.z v - vn * nz))
      with (Vector3.x v * Vector3.x v + Vector3.z v * Vector3.z v
            - 2 * vn * vn + vn * vn * (nx * nx + nz * nz))
      by (unfold vn; ring).
    rewrite Hn. nra.
Qed.

Lemma treeCollisions_speed (pr : R) (cs : list Collider.t) :
  forall p v, speedSq (snd (treeCollisions pr cs (p, v))) <= speedSq v.
Proof.
  unfold treeCollisions. induction cs as [| c cs IH]; intros p v;
    cbn [fold_left].
  - apply Rle_refl.
  - pose proof (collide_speed pr p v c) as H.
    destruct (collide pr (p, v) c) as [p' v']. cbn [snd] in H.
    eapply Rle_trans; [apply IH | exact H].
Qed.

(** ** The horizontal speed *)

(** Lines 195 to 255 on the velocity: damped towards [_desiredVel] at rate
    18 or 14, then handed to the collision loop. *)
Lemma update_damped_velocity (dt : R) (s : Controller) (tgt : Object3D.t) :
  target s = Some tgt ->
  exists accel pos vy,
    (accel = 18 \/ accel = 14) /\
    let dv := _desiredVel (fst (update dt s)) in
    let vx := damp (Vector3.x (velocity s)) (Vector3.x dv) accel dt in
    let vz := damp (Vector3.z (velocity s)) (Vector3.z dv) accel dt in
    velocity (fst (update dt s))
    = snd (treeCollisions (playerRadius s) (collidersOf s)
             (pos, Vector3.mk vx vy vz)).
Proof.
  intro Ht. unfold update, collidersOf. rewrite Ht.
  cbn [fst velocity _desiredVel].
  match goal with
  | |- context [damp _ _ (if ?b then 18 else 14) _] => destruct b
  end; do 3 eexists; (split; [| reflexivity]); [left | right]; reflexivity.
Qed.

Lemma desiredVel_bound (o : Options) (s : Controller) (dt : R) :
  Reachable o s -> target s <> None ->
  speedSq (_desiredVel (fst (update dt s))) <= 7.4 * 7.4.
Proof.
  intros Hreach Ht. destruct (moveIntent (_keysDown s)) eqn:Hmove.
  - destruct (desiredVel_speed o s dt Hreach Ht Hmove) as (_ & Hy & Hl).
    set (dv := _desiredVel (fst (update dt s))) in *.
    assert (Hsq : Vector3.lengthSq dv
                  = Vector3.length dv * Vector3.length dv).
    { unfold Vector3.length. symmetry. apply sqrt_sqrt.
      unfold Vector3.lengthSq. nra. }
    unfold Vector3.lengthSq in Hsq. rewrite Hy, Hl in Hsq. unfold speedSq.
    clearbody dv. destruct (isRunningOf (_keysDown s)); lra.
  - destruct (target s) as [tgt |] eqn:Etgt; [| contradiction].
    pose proof (reachable_config o s Hreach) as Hc.
    assert (Eup : _up s = Vector3.mk 0 1 0).
    { destruct Hc as (_ & _ & _ & _ & _ & _ & _ & _ & _ & _ & _ & _ & _ & _ & E).
      exact E. }
    destruct (update_moveDir dt s tgt Etgt Eup) as (f & _ & _ & _ & _ & Hd).
    rewrite Hmove in Hd. rewrite Hd. unfold speedSq. simpl. nra.
Qed.

(** Damping towards a velocity no faster than [top] keeps the speed under
    [top]. *)
Lemma damp_speed (vx vz dx dz accel dt top : R) :
  0 < accel -> 0 <= dt ->
  vx * vx + vz * vz <= top -> dx * dx + dz * dz <= top ->
  damp vx dx accel dt * damp vx dx accel dt
  + damp vz dz accel dt * damp vz dz accel dt <= top.
Proof.
  intros Ha Hdt Hv Hd. rewrite !damp_formula. unfold damp_spec.
  assert (Hq : 0 < exp (- accel * dt) <= 1).
  { split; [apply exp_pos |]. rewrite <- exp_0.
    destruct Hdt as [Hdt | <-].
    - left. apply exp_increasing. nra.
    - right. f_equal. ring. }
  set (q := exp (- accel * dt)) in *.
  replace ((vx + (dx - vx) * (1 - q)) * (vx + (dx - vx) * (1 - q))
           + (vz + (dz - vz) * (1 - q)) * (vz + (dz - vz) * (1 - q)))
    with (q * (vx * vx + vz * vz) + (1 - q) * (dx * dx + dz * dz)
          - q * (1 - q) * ((vx - dx) * (vx - dx) + (vz - dz) * (vz - dz)))
    by ring.
  clearbody q.
  assert (H1 : 0 <= q * (1 - q) * ((vx - dx) * (vx - dx) + (vz - dz) * (vz - dz))).
  { apply Rmult_le_pos; [apply Rmult_le_pos; lra |].
    pose proof (Rle_0_sqr (vx - dx)). pose proof (Rle_0_sqr (vz - dz)).
    unfold Rsqr in *. lra. }
  assert (H2 : q * (vx * vx + vz * vz) <= q * top)
    by (apply Rmult_le_compat_l; lra).
  assert (H3 : (1 - q) * (dx * dx + dz * dz) <= (1 - q) * top)
    by (apply Rmult_le_compat_l; lra).
  lra.
Qed.

Lemma update_speed (o : Options) (s : Controller) (dt : R) :
  Reachable o s -> 0 <= dt ->
  speedSq (velocity s) <= 7.4 * 7.4 ->
  speedSq (velocity (fst (update dt s))) <= 7.4 * 7.4.
Proof.
  intros Hreach Hdt Hv. destruct (target s) as [tgt |] eqn:Ht.
  - destruct (update_damped_velocity dt s tgt Ht)
      as (accel & pos & vy & Ha & H).
    cbv zeta in H. rewrite H.
    eapply Rle_trans; [apply treeCollisions_speed |].
    unfold speedSq at 1. cbn [Vector3.x Vector3.z].
    apply damp_speed; auto.
    + destruct Ha; lra.
    + apply (desiredVel_bound o s dt Hreach). congruence.
  - rewrite (update_no_target dt s Ht). exact Hv.
Qed.

(** X7: the character never moves faster than the run speed.  In every
    state reached through frames with [dt >= 0], whatever the keys, the
    colliders and the frame lengths, the horizontal speed is at most 7.4. *)
Theorem speed_never_exceeds_run_speed (o : Options) (inputs : list Input) :
  framesForward inputs = true ->
  sqrt (speedSq (velocity (state_after (constructor o) inputs))) <= 7.4.
Proof.
  intro Hf.
  assert (H : speedSq (velocity (state_after (constructor o) inputs))
              <= 7.4 * 7.4).
  { assert (G : forall before s,
                s = state_after (constructor o) before ->
                speedSq (velocity s) <= 7.4 * 7.4 ->
                speedSq (velocity (state_after s inputs)) <= 7.4 * 7.4).
    { induction inputs as [| i rest IH]; intros before s Hs Hv; [exact Hv |].
      simpl in Hf. apply andb_true_iff in Hf. destruct Hf as [Hi Hrest].
      rewrite state_after_cons.
      apply (IH Hrest (before ++ [i])).
      - rewrite Hs, state_after_app, state_after_cons. reflexivity.
      - destruct (isFrame i) eqn:E.
        + destruct i; try discriminate. cbn [step].
          apply leb_true in Hi.
          apply (update_speed o); auto. exists before. exact Hs.
        + destruct (handlers_physics s i E) as (_ & Hvel & _).
          rewrite Hvel. exact Hv. }
    apply (G [] (constructor o)); [reflexivity |].
    unfold speedSq. simpl. lra. }
  rewrite <- (sqrt_square 7.4) by lra. apply sqrt_le_1_alt. exact H.
Qed.

(** The theorem for a sprint: shift and W down over three frames. *)
Lemma speed_never_exceeds_run_speed_witness :
  let o := loadPlayer_options (Vector3.mk 0 0 0) (field_environment []) in
  sqrt (speedSq
          (velocity
             (state_after (constructor o)
                [KeyDown (mkKeyboardEvent "ShiftLeft" false);
                 KeyDown (mkKeyboardEvent "KeyW" false);
                 Frame (1 / 60); Frame (1 / 30); Frame 0])))
  <= 7.4.
Proof.
  intro o. apply (speed_never_exceeds_run_speed o).
  unfold framesForward. cbn [forallb].
  rewrite !andb_true_iff. repeat split; apply leb_true; lra.
Defined.

(** ** The height of a jump *)

Lemma update_jump_energy (o : Options) (dt : R) (s : Controller) :
  Reachable o s -> jump_energy_inv s -> jump_energy_inv (fst (update dt s)).
Proof.
  intros Hreach Inv. destruct (target s) as [tgt |] eqn:Ht.
  - pose proof (reachable_config o s Hreach)
      as (_ & _ & _ & _ & _ & _ & Ej & Eg & _).
    simpl in Ej, Eg.
    assert (Hh : heightOf s = Some (Vector3.y (Object3D.position tgt)))
      by (unfold heightOf; rewrite Ht; reflexivity).
    destruct (Inv _ Hh) as [I1 I2].
    destruct (update_vertical dt s tgt Ht) as (H1 & H2 & H3 & _).
    destruct (update_same_config dt s tgt Ht)
      as (He & _ & _ & _ & _ & _ & Ej' & Eg' & _).
    intros h' Hh'. unfold groundYOf. rewrite He. fold (groundYOf s).
    rewrite H1 in Hh'. injection Hh' as <-. rewrite H2, H3, Ej', Eg', Ej, Eg.
    rewrite Ej, Eg in *.
    set (h := Vector3.y (Object3D.position tgt)) in *.
    set (g := groundYOf s) in *. set (vy := Vector3.y (velocity s)) in *.
    clearbody h g vy.
    destruct (onGround s) eqn:Eg0; destruct (_jumpRequested s);
      cbn [andb negb] in *;
      match goal with
      | |- context [leb ?a ?b] =>
          let E := fresh "E" in
          destruct (leb a b) eqn:E;
          [apply leb_true in E | apply leb_false in E]
      end;
      (split; intro H; try discriminate);
      try (split; [lra | reflexivity]);
      try (destruct (I1 eq_refl) as [Hle Hv]);
      try (destruct (I2 eq_refl) as [Hlt Hen]);
      try (rewrite Hv in *); try lra;
      (split; [lra | nra]).
  - rewrite (update_no_target dt s Ht). exact Inv.
Qed.

Lemma run_jump_energy (o : Options) (inputs : list Input) :
  forall before s,
    s = state_after (constructor o) before ->
    jump_energy_inv s -> jump_energy_inv (state_after s inputs).
Proof.
  induction inputs as [| i rest IH]; intros before s Hs Inv; [exact Inv |].
  rewrite state_after_cons. apply (IH (before ++ [i])).
  - rewrite Hs, state_after_app, state_after_cons. reflexivity.
  - destruct (isFrame i) eqn:E.
    + destruct i; try discriminate. cbn [step].
      apply (update_jump_energy o); [exists before; exact Hs | exact Inv].
    + destruct (handlers_physics s i E) as (Ht & Hv & Hg & _).
      destruct (handlers_same_config s i E)
        as (He & _ & _ & _ & _ & _ & Ej & Eg & _).
      unfold jump_energy_inv, heightOf, groundYOf in *.
      rewrite Ht, Hv, Hg, He, Ej, Eg. exact Inv.
Qed.

(** X8: a jump has a ceiling.  When the target is at or below ground height
    at construction, then in every reachable state, for frames of any
    length, the target is never higher above the ground than
    [jumpSpeed^2 / (2 * gravity) = 7.2^2 / 37], about 1.40 units. *)
Theorem jump_height_is_bounded (o : Options) (inputs : list Input) (h : R) :
  (forall h0, heightOf (constructor o) = Some h0 ->
              h0 <= groundYOf (constructor o)) ->
  heightOf (state_after (constructor o) inputs) = Some h ->
  h <= groundYOf (constructor o) + 7.2 * 7.2 / 37.
Proof.
  intros Hspawn Hh.
  assert (Inv : jump_energy_inv (state_after (constructor o) inputs)).
  { apply (run_jump_energy o inputs [] (constructor o)); [reflexivity |].
    intros h0 Hh0. split.
    - intros _. split; [apply Hspawn, Hh0 | reflexivity].
    - discriminate. }
  pose proof (run_same_config inputs (constructor o))
    as (He & _ & _ & _ & _ & _ & Ej & Eg & _).
  simpl in Ej, Eg.
  destruct (Inv h Hh) as [I1 I2].
  assert (Hgy : groundYOf (state_after (constructor o) inputs)
                = groundYOf (constructor o))
    by (unfold groundYOf; rewrite He; reflexivity).
  rewrite Hgy, ?Ej, ?Eg in *.
  destruct (onGround (state_after (constructor o) inputs)).
  - destruct (I1 eq_refl). lra.
  - destruct (I2 eq_refl) as [_ Hen].
    set (vy := Vector3.y (velocity (state_after (constructor o) inputs))) in *.
    pose proof (Rle_0_sqr vy) as Hsq. unfold Rsqr in Hsq. lra.
Qed.

(** The theorem for the player of [loadPlayer] a long frame into a jump. *)
Lemma jump_height_is_bounded_witness :
  let o := loadPlayer_options (Vector3.mk 0 0 0) (field_environment []) in
  let inputs := [KeyDown (mkKeyboardEvent "Space" false); Frame (1 / 5)] in
  exists h,
    heightOf (state_after (constructor o) inputs) = Some h /\
    h <= 0 + 7.2 * 7.2 / 37.
Proof.
  intros o inputs.
  destruct (target (state_after (constructor o) inputs)) as [tgt |] eqn:Ht.
  - exists (Vector3.y (Object3D.position tgt)).
    assert (Hh : heightOf (state_after (constructor o) inputs)
                 = Some (Vector3.y (Object3D.position tgt)))
      by (unfold heightOf; rewrite Ht; reflexivity).
    split; [exact Hh |].
    apply (jump_height_is_bounded o inputs _).
    + intros h0 Hh0. injection Hh0 as <-. vm_compute. lra.
    + exact Hh.
  - apply (run_target_presence inputs (constructor o)) in Ht. discriminate.
Defined.

(** ** The camera rig *)

(** Lines 150 to 169, read off the state after the frame. *)
Lemma update_camera (dt : R) (s : Controller) (tgt : Object3D.t) :
  target s = Some tgt ->
  let p0 := Object3D.position tgt in
  let s' := fst (update dt s) in
  _targetPos s' = Vector3.set_y p0 (Vector3.y p0 + targetHeight s) /\
  _cameraOffset s'
  = Vector3.mk (sin (phi s) * sin (yaw s) * distance s)
               (cos (phi s) * distance s)
               (sin (phi s) * cos (yaw s) * distance s) /\
  _desiredCameraPos s' = Vector3.add (_targetPos s') (_cameraOffset s') /\
  Camera.position (camera s')
  = Vector3.lerp (Camera.position (camera s)) (_desiredCameraPos s')
      (1 - exp (- cameraSmooth s * dt)).
Proof.
  intro Ht. unfold update. rewrite Ht. repeat split.
Qed.

(** X9: the geometry of the camera rig.  After a frame from a reachable
    state the desired camera position is the aim point plus an offset
    whose length is exactly the orbit distance, between 3.6 and 18, and
    whose vertical part is positive: the camera is always sent above the
    aim point.  The camera itself closes in on that position: what
    separated the two before the frame is scaled by [e^(-14 dt)]. *)
Theorem camera_orbits_above_target (o : Options) (s : Controller) (dt : R)
    (tgt : Object3D.t) :
  Reachable o s -> target s = Some tgt ->
  let s' := fst (update dt s) in
  _desiredCameraPos s' = Vector3.add (_targetPos s') (_cameraOffset s') /\
  Vector3.length (_cameraOffset s') = distance s /\
  3.6 <= distance s <= 18 /\
  0 < Vector3.y (_cameraOffset s') /\
  Vector3.subVectors (Camera.position (camera s')) (_desiredCameraPos s')
  = Vector3.multiplyScalar
      (Vector3.subVectors (Camera.position (camera s)) (_desiredCameraPos s'))
      (exp (- 14 * dt)).
Proof.
  intros Hreach Ht s'.
  destruct (update_camera dt s tgt Ht) as (_ & Hoff & Hdes & Hcam).
  fold s' in Hoff, Hdes, Hcam.
  pose proof (reachable_orbit_ok o s Hreach) as [Hphi Hdist].
  pose proof (reachable_config o s Hreach)
    as (_ & _ & _ & _ & _ & _ & _ & _ & _ & E3 & E4 & E5 & E6 & E7 & _).
  simpl in E3, E4, E5, E6, E7. rewrite E3, E4 in Hdist. rewrite E5, E6 in Hphi.
  split; [exact Hdes |]. split; [| split; [lra | split]].
  - rewrite Hoff. unfold Vector3.length, Vector3.lengthSq.
    cbn [Vector3.x Vector3.y Vector3.z].
    pose proof (sin2_cos2 (phi s)) as Hp. pose proof (sin2_cos2 (yaw s)) as Hy.
    unfold Rsqr in Hp, Hy.
    replace (sin (phi s) * sin (yaw s) * distance s
             * (sin (phi s) * sin (yaw s) * distance s)
             + cos (phi s) * distance s * (cos (phi s) * distance s)
             + sin (phi s) * cos (yaw s) * distance s
               * (sin (phi s) * cos (yaw s) * distance s))
      with (distance s * distance s
            * (sin (phi s) * sin (phi s)
               * (sin (yaw s) * sin (yaw s) + cos (yaw s) * cos (yaw s))
               + cos (phi s) * cos (phi s))) by ring.
    rewrite Hy, Rmult_1_r, Hp, Rmult_1_r. apply sqrt_square. lra.
  - rewrite Hoff. cbn [Vector3.y].
    pose proof PI2_3_2 as Hpi.
    assert (0 < cos (phi s)) by (apply cos_gt_0; lra).
    apply Rmult_lt_0_compat; lra.
  - rewrite Hcam, E7. unfold Vector3.subVectors, Vector3.lerp,
      Vector3.multiplyScalar. cbn [Vector3.x Vector3.y Vector3.z].
    replace (- (14) * dt) with (-14 * dt) by ring.
    f_equal; ring.
Qed.

(** The theorem for the first frame of the player of [loadPlayer]. *)
Lemma camera_orbits_above_target_witness :
  let o := loadPlayer_options (Vector3.mk 0 0 0) (field_environment []) in
  let s' := fst (update (1 / 60) (constructor o)) in
  Vector3.length (_cameraOffset s') = 8.5 /\
  0 < Vector3.y (_cameraOffset s').
Proof.
  intros o s'.
  destruct (camera_orbits_above_target o (constructor o) (1 / 60)
              (Object3D.mk (Vector3.mk 0 0 0) Quaternion.identity))
    as (_ & H1 & _ & H2 & _).
  - exists []. reflexivity.
  - reflexivity.
  - split; [exact H1 | exact H2].
Defined.

(** ** Standing still *)




(** ** The jump callback *)

Lemma update_effects (dt : R) (s : Controller) :
  snd (update dt s)
  = if appliesJump s
    then match onJump s with Some f => f tt | None => [] end
    else [].
Proof.
  unfold appliesJump. destruct (target s) as [tgt |] eqn:Ht.
  - apply (update_vertical dt s tgt Ht).
  - rewrite (update_no_target dt s Ht). reflexivity.
Qed.

(** X11: the jump callback is called once for every frame that applies a
    jump impulse, and nothing else is ever called: the effects of a run are
    those of [onJump], repeated as many times as frames jumped (none at
    all when [onJump] is null). *)
Theorem onJump_called_once_per_jump (inputs : list Input) :
  forall s,
    snd (run s inputs)
    = List.concat
        (List.repeat (match onJump s with Some f => f tt | None => [] end)
           (jumpCount s inputs)).
Proof.
  induction inputs as [| i rest IH]; intro s; [reflexivity |].
  cbn [run jumpCount].
  pose proof (step_same_config s i) as (_ & Hj & _).
  specialize (IH (fst (step s i))). rewrite Hj in IH.
  assert (Hstep : snd (step s i)
                  = List.concat
                      (List.repeat
                         (match onJump s with Some f => f tt | None => [] end)
                         (match i with
                          | Frame _ => if appliesJump s then 1 else 0
                          | _ => 0
                          end))).
  { destruct i; try reflexivity. cbn [step]. rewrite update_effects.
    destruct (appliesJump s); simpl; [rewrite app_nil_r |]; reflexivity. }
  destruct (step s i) as [s1 o1]. cbn [fst snd] in *.
  destruct (run s1 rest) as [s2 o2]. cbn [fst snd] in *.
  rewrite Hstep, IH, List.repeat_app, List.concat_app. reflexivity.
Qed.

(** * The environment *)

(** ** Where the trees stand *)

Lemma treeCandidate_in_field (half : R) (rand : Random) (k : nat) :
  unitRandom rand -> 6 <= half ->
  Rabs (fst (treeCandidate half rand k)) <= half - 6 /\
  Rabs (snd (treeCandidate half rand k)) <= half - 6.
Proof.
  intros Hr Hh. unfold treeCandidate. cbn [fst snd].
  pose proof (Hr k) as H1. pose proof (Hr (S k)) as H2.
  split; apply Rabs_le; split; nra.
Qed.

Lemma spawnTries_in_field (half : R) (rand : Random) (tries : nat) :
  unitRandom rand -> 6 <= half ->
  forall k xz,
    Rabs (fst xz) <= half - 6 -> Rabs (snd xz) <= half - 6 ->
    Rabs (fst (fst (spawnTries tries half rand k xz))) <= half - 6 /\
    Rabs (snd (fst (spawnTries tries half rand k xz))) <= half - 6.
Proof.
  intros Hr Hh. induction tries as [| n IH]; intros k xz Hx Hz.
  - split; assumption.
  - cbn [spawnTries].
    destruct (treeCandidate_in_field half rand k Hr Hh) as [Cx Cz].
    destruct (ltb _ _); [split; assumption | apply IH; assumption].
Qed.

Lemma placeTree_in_field (half : R) (rand : Random) (k : nat) :
  unitRandom rand -> 6 <= half ->
  treeInField half (fst (placeTree half rand k)).
Proof.
  intros Hr Hh. unfold placeTree.
  assert (H0 : Rabs (fst ((0, 0) : R * R)) <= half - 6 /\
               Rabs (snd ((0, 0) : R * R)) <= half - 6)
    by (cbn [fst snd]; rewrite Rabs_R0; split; lra).
  destruct H0 as [H0x H0z].
  pose proof (spawnTries_in_field half rand 50 Hr Hh k (0, 0) H0x H0z)
    as [Hx Hz].
  destruct (spawnTries 50 half rand k (0, 0)) as [xz k1].
  cbn [fst snd] in *. unfold treeInField. cbn.
  pose proof (Hr (S k1)). repeat split; try assumption; lra.
Qed.

Lemma treeLoop_in_field (half : R) (rand : Random) (treeCount : nat) :
  unitRandom rand -> 6 <= half ->
  forall k,
    List.length (fst (treeLoop treeCount half rand k)) = treeCount /\
    Forall (treeInField half) (fst (treeLoop treeCount half rand k)).
Proof.
  intros Hr Hh. induction treeCount as [| n IH]; intro k.
  - split; [reflexivity | constructor].
  - cbn [treeLoop].
    pose proof (placeTree_in_field half rand k Hr Hh) as Hc.
    destruct (placeTree half rand k) as [c k1].
    destruct (IH k1) as [Hlen Hall].
    destruct (treeLoop n half rand k1) as [rest k2].
    cbn [fst] in *. split; [simpl; congruence | constructor; assumption].
Qed.

(** X12: where [createEnvironment] puts the trees.  For a field of size 12
    or more and whatever [Math.random] returns, the environment has half
    the field size as [boundsHalfSize], ground height 0, and exactly
    [treeCount] colliders, each on the ground plane, at least 6 inside the
    edge of the field on both axes and with a radius from 1.035 up to
    1.725. *)
Theorem trees_stand_inside_field (rand : Random) (fieldSize : option R)
    (treeCount : option nat) :
  unitRandom rand -> 12 <= nullish fieldSize 520 ->
  let e := env_returned (createEnvironment rand fieldSize treeCount) in
  let half := nullish fieldSize 520 / 2 in
  Environment.boundsHalfSize e = Some half /\
  Environment.groundY e = Some 0 /\
  exists trees,
    Environment.treeColliders e = Some trees /\
    List.length trees = nullish treeCount 260%nat /\
    Forall (treeInField half) trees.
Proof.
  intros Hr Hsize e half. unfold e, createEnvironment. fold half.
  assert (Hh : 6 <= half) by (unfold half; lra).
  destruct (treeLoop_in_field half rand (nullish treeCount 260%nat) Hr Hh
              grassTextureCalls) as [Hlen Hall].
  destruct (treeLoop _ half rand grassTextureCalls) as [trees k1].
  cbn [fst] in *. cbn.
  repeat split. exists trees. repeat split; assumption.
Qed.

(** The theorem for the default field of 520 with 260 trees, and a
    [Math.random] that always returns 0. *)
Lemma trees_stand_inside_field_witness :
  let e := env_returned (createEnvironment (fun _ => 0) None None) in
  Environment.boundsHalfSize e = Some (520 / 2) /\
  Environment.groundY e = Some 0 /\
  exists trees,
    Environment.treeColliders e = Some trees /\
    List.length trees = 260%nat /\
    Forall (treeInField (520 / 2)) trees.
Proof.
  apply (trees_stand_inside_field (fun _ => 0) None None).
  - intro n. lra.
  - simpl. lra.
Defined.

(** ** The spawn area *)

(** X13: the clearing around the spawn point is best effort.  The position
    a tree gets is outside the circle of radius 16 around the origin
    unless all of its 50 candidates fell inside it, in which case the
    tree stands at the fiftieth candidate, inside the circle. *)
Theorem spawn_area_cleared_within_50_tries (half : R) (rand : Random)
    (k : nat) :
  let '(xz, k') := spawnTries 50 half rand k (0, 0) in
  16 * 16 < fst xz * fst xz + snd xz * snd xz \/
  (k' = (k + 100)%nat /\
   xz = treeCandidate half rand (k + 98) /\
   forall t, (t < 50)%nat ->
     let c := treeCandidate half rand (k + 2 * t) in
     fst c * fst c + snd c * snd c <= 16 * 16).
Proof.
  assert (G : forall tries k xz,
            let '(p, k') := spawnTries tries half rand k xz in
            16 * 16 < fst p * fst p + snd p * snd p \/
            (k' = (k + 2 * tries)%nat /\
             p = match tries with
                 | O => xz
                 | S n => treeCandidate half rand (k + 2 * n)
                 end /\
             forall t, (t < tries)%nat ->
               let c := treeCandidate half rand (k + 2 * t) in
               fst c * fst c + snd c * snd c <= 16 * 16)).
  { clear k. induction tries as [| n IH]; intros k xz.
    - cbn [spawnTries]. right. split; [lia |]. split; [reflexivity |].
      intros t Ht. lia.
    - cbn [spawnTries]. unfold spawnAvoidRadius.
      destruct (ltb (16 * 16) _) eqn:E.
      + left. apply ltb_true in E. exact E.
      + apply ltb_false in E.
        specialize (IH (S (S k)) (treeCandidate half rand k)).
        destruct (spawnTries n half rand (S (S k)) (treeCandidate half rand k))
          as [p k'].
        destruct IH as [IH | (Hk & Hp & Hall)]; [left; exact IH |].
        right. split; [lia |]. split.
        * rewrite Hp. destruct n as [| m].
          -- f_equal. lia.
          -- f_equal. lia.
        * intros t Ht. destruct t as [| t].
          -- replace (k + 2 * 0)%nat with k by lia. exact E.
          -- replace (k + 2 * S t)%nat with (S (S k) + 2 * t)%nat by lia.
             apply Hall. lia. }
  specialize (G 50%nat k (0, 0)).
  destruct (spawnTries 50 half rand k (0, 0)) as [xz k'].
  destruct G as [G | (Hk & Hp & Hall)]; [left; exact G |].
  right. split; [lia |]. split; [| exact Hall].
  rewrite Hp. f_equal.
Qed.

(** ** The clouds *)

Lemma placeCloud_in_range (cloudRange : R) (rand : Random) (k : nat) :
  unitRandom rand -> 0 <= cloudRange ->
  cloudInRange cloudRange (placeCloud cloudRange rand k).
Proof.
  intros Hr Hc. unfold cloudInRange, placeCloud.
  cbn [Cloud.position Cloud.speed Vector3.x].
  pose proof (Hr (3 + k)%nat). pose proof (Hr (6 + k)%nat).
  repeat split; nra.
Qed.

Lemma cloudLoop_in_range (cloudRange : R) (rand : Random) (count : nat) :
  unitRandom rand -> 0 <= cloudRange ->
  forall k, Forall (cloudInRange cloudRange)
              (cloudLoop count cloudRange rand k).
Proof.
  intros Hr Hc. induction count as [| n IH]; intro k; cbn [cloudLoop].
  - constructor.
  - constructor; [apply placeCloud_in_range; assumption | apply IH].
Qed.

Lemma driftCloud_in_range (cloudRange dt : R) (c : Cloud.t) :
  0 <= dt -> cloudInRange cloudRange c ->
  cloudInRange cloudRange (driftCloud cloudRange dt c).
Proof.
  intros Hdt [[Hlo Hhi] Hs]. unfold cloudInRange, driftCloud. cbn.
  split; [| exact Hs].
  destruct (ltb cloudRange _) eqn:E.
  - lra.
  - apply ltb_false in E. split; [nra | exact E].
Qed.

(** X14: the clouds never leave their range.  However [Math.random] falls
    and for a field of any size, the clouds [createEnvironment] makes, and
    the clouds after any number of environment updates with
    [deltaSeconds >= 0], have their x within [-cloudRange, cloudRange] and
    a drift speed from 0.5 up to 1.7. *)
Theorem clouds_stay_in_range (rand : Random) (fieldSize : option R)
    (treeCount : option nat) (deltas : list R) :
  unitRandom rand -> 0 <= nullish fieldSize 520 ->
  Forall (fun dt => 0 <= dt) deltas ->
  let e :=
    fold_left (fun e dt => environment_update dt e) deltas
      (createEnvironment rand fieldSize treeCount) in
  env_cloudRange e = nullish fieldSize 520 / 2 * 1.2 /\
  List.length (env_clouds e) = 34%nat /\
  Forall (cloudInRange (env_cloudRange e)) (env_clouds e).
Proof.
  intros Hr Hsize Hall.
  set (range := nullish fieldSize 520 / 2 * 1.2).
  assert (Hrange : 0 <= range) by (unfold range; lra).
  assert (G : forall e,
            env_cloudRange e = range ->
            List.length (env_clouds e) = 34%nat ->
            Forall (cloudInRange range) (env_clouds e) ->
            let e' := fold_left (fun e dt => environment_update dt e) deltas e
            in
            env_cloudRange e' = range /\
            List.length (env_clouds e') = 34%nat /\
            Forall (cloudInRange range) (env_clouds e')).
  { induction Hall as [| dt deltas Hdt _ IH]; intros e H1 H2 H3.
    - cbn. repeat split; assumption.
    - cbn [fold_left]. apply IH.
      + exact H1.
      + cbn. rewrite length_map. exact H2.
      + cbn. rewrite H1. apply Forall_map.
        eapply Forall_impl; [| exact H3].
        intros c Hc. apply driftCloud_in_range; assumption. }
  cbv zeta in G |- *.
  assert (H0 : env_cloudRange (createEnvironment rand fieldSize treeCount)
               = range /\
               List.length
                 (env_clouds (createEnvironment rand fieldSize treeCount))
               = 34%nat /\
               Forall (cloudInRange range)
                 (env_clouds (createEnvironment rand fieldSize treeCount))).
  { unfold createEnvironment.
    destruct (treeLoop _ _ rand grassTextureCalls) as [trees k1].
    cbn [env_cloudRange env_clouds]. fold range.
    split; [reflexivity |]. split.
    - reflexivity.
    - apply cloudLoop_in_range; assumption. }
  destruct H0 as (H1 & H2 & H3).
  destruct (G _ H1 H2 H3) as (G1 & G2 & G3).
  rewrite G1. repeat split; assumption.
Qed.

(** The theorem for the default field after three frames. *)
Lemma clouds_stay_in_range_witness :
  let e :=
    fold_left (fun e dt => environment_update dt e) [0.05; 1 / 60; 0]
      (createEnvironment (fun _ => 0) None None) in
  env_cloudRange e = 520 / 2 * 1.2 /\
  List.length (env_clouds e) = 34%nat /\
  Forall (cloudInRange (env_cloudRange e)) (env_clouds e).
Proof.
  apply (clouds_stay_in_range (fun _ => 0) None None [0.05; 1 / 60; 0]).
  - intro n. lra.
  - simpl. lra.
  - repeat constructor; lra.
Defined.

(** ** The controller in a created environment *)

(** After a frame the position is within [bound] of the origin when the
    clamp interval and the circles of the colliders are. *)
Lemma update_within (dt : R) (s : Controller) (tgt : Object3D.t) :
  target s = Some tgt -> margin <= halfOf s ->
  Forall
    (fun c =>
       Rabs (Vector3.x (Collider.position c))
       + Rabs (playerRadius s + Collider.radius c) <= halfOf s - margin /\
       Rabs (Vector3.z (Collider.position c))
       + Rabs (playerRadius s + Collider.radius c) <= halfOf s - margin)
    (collidersOf s) ->
  exists tgt',
    target (fst (update dt s)) = Some tgt' /\
    Rabs (Vector3.x (Object3D.position tgt')) <= halfOf s - margin /\
    Rabs (Vector3.z (Object3D.position tgt')) <= halfOf s - margin.
Proof.
  intros Ht Hm Hcs.
  destruct (update_horizontal dt s tgt Ht) as (accel & py & vy & q & H).
  cbv zeta in H. destruct H as [H _]. eexists. split; [exact H |].
  cbn [Object3D.position].
  apply (treeCollisions_in_box _ _ _ Hcs); cbn [Vector3.x Vector3.z];
    apply Rabs_le;
    match goal with
    | |- - _ <= clamp ?v ?lo ?hi <= _ =>
        pose proof (clamp_bounds v lo hi)
    end; lra.
Qed.

(** X15: in the world [createEnvironment] builds the trees cannot push the
    character out of bounds.  For a field of size 12 or more, whatever
    [Math.random] returns, and a player radius between 0 and 2.275, a
    frame of any length from any state of a controller that holds that
    environment ends with [|position.x|] and [|position.z|] at most
    [boundsHalfSize - 2]. *)
Theorem created_environment_keeps_bounds (rand : Random)
    (fieldSize : option R) (treeCount : option nat)
    (dt : R) (s : Controller) (tgt : Object3D.t) :
  unitRandom rand -> 12 <= nullish fieldSize 520 ->
  target s = Some tgt ->
  environment s
  = Some (env_returned (createEnvironment rand fieldSize treeCount)) ->
  0 <= playerRadius s <= 2.275 ->
  exists tgt',
    target (fst (update dt s)) = Some tgt' /\
    Rabs (Vector3.x (Object3D.position tgt'))
    <= nullish fieldSize 520 / 2 - 2 /\
    Rabs (Vector3.z (Object3D.position tgt'))
    <= nullish fieldSize 520 / 2 - 2.
Proof.
  intros Hr Hsize Ht He Hpr.
  set (half := nullish fieldSize 520 / 2) in *.
  assert (Hh : 6 <= half) by (unfold half; lra).
  assert (Henv : halfOf s = half /\
                 Forall (treeInField half) (collidersOf s)).
  { unfold halfOf, collidersOf. rewrite He. unfold createEnvironment.
    fold half.
    destruct (treeLoop_in_field half rand (nullish treeCount 260%nat) Hr Hh
                grassTextureCalls) as [_ Hall].
    destruct (treeLoop _ half rand grassTextureCalls) as [trees k1].
    cbn. split; [reflexivity | exact Hall]. }
  destruct Henv as [Hhalf Htrees].
  destruct (update_within dt s tgt Ht) as (tgt' & H1 & H2 & H3).
  - rewrite Hhalf. unfold margin. lra.
  - rewrite Hhalf. unfold margin.
    eapply Forall_impl; [| exact Htrees].
    intros c (Hx & Hz & _ & Hrad).
    assert (Rabs (playerRadius s + Collider.radius c) <= 4)
      by (apply Rabs_le; lra).
    split; lra.
  - exists tgt'. rewrite Hhalf in H2, H3. unfold margin in H2, H3.
    split; [exact H1 |]. split; lra.
Qed.

(** The theorem for the player of [loadPlayer] in the default field. *)
Lemma created_environment_keeps_bounds_witness :
  let env := env_returned (createEnvironment (fun _ => 0) None None) in
  let s := constructor (loadPlayer_options (Vector3.mk 0 0 0) env) in
  exists tgt',
    target (fst (update (1 / 60) s)) = Some tgt' /\
    Rabs (Vector3.x (Object3D.position tgt')) <= 520 / 2 - 2 /\
    Rabs (Vector3.z (Object3D.position tgt')) <= 520 / 2 - 2.
Proof.
  intros env s.
  apply (created_environment_keeps_bounds (fun _ => 0) None None (1 / 60) s
           (Object3D.mk (Vector3.mk 0 0 0) Quaternion.identity)).
  - intro n. lra.
  - simpl. lra.
  - reflexivity.
  - reflexivity.
  - simpl. lra.
Defined.

(** * The player of [loadPlayer] *)

Lemma step_above_ground (s : Controller) (i : Input) :
  (forall h, heightOf s = Some h -> groundYOf s <= h) ->
  forall h, heightOf (fst (step s i)) = Some h ->
            groundYOf (fst (step s i)) <= h.
Proof.
  intros Inv h Hh.
  assert (Hg : groundYOf (fst (step s i)) = groundYOf s).
  { destruct (step_same_config s i) as [He _]. unfold groundYOf.
    rewrite He. reflexivity. }
  rewrite Hg. destruct (isFrame i) eqn:E.
  - destruct i; try discriminate. cbn [step] in Hh.
    destruct (target s) as [tgt |] eqn:Ht.
    + destruct (update_vertical dt s tgt Ht) as (H1 & _).
      rewrite H1 in Hh. injection Hh as <-.
      destruct (leb _ (groundYOf s)) eqn:El;
        [lra | apply leb_false in El; lra].
    + rewrite (update_no_target dt s Ht) in Hh. apply Inv, Hh.
  - destruct (handlers_physics s i E) as (Ht & _).
    unfold heightOf in *. rewrite Ht in Hh. apply Inv, Hh.
Qed.

Lemma run_above_ground (inputs : list Input) :
  forall s,
    (forall h, heightOf s = Some h -> groundYOf s <= h) ->
    forall h, heightOf (state_after s inputs) = Some h ->
              groundYOf (state_after s inputs) <= h.
Proof.
  induction inputs as [| i rest IH]; intros s Inv; [exact Inv |].
  rewrite state_after_cons. apply IH, step_above_ground, Inv.
Qed.

(** X16: the player [loadPlayer] sets up.  For any environment, any size
    of the model and any inputs, the controller always has a target; the
    target is never below the ground and never more than [7.2^2 / 37]
    (about 1.40) above it; [onGround] is true exactly when it is at ground
    height; and the camera aims between 0.8 and 1.6 above the root. *)
Theorem loaded_player_stays_on_the_ground (cam : Camera.t)
    (env : Environment.t) (sized : Vector3.t) (inputs : list Input) :
  let s := state_after (loadPlayer_controller cam env sized) inputs in
  0.8 <= targetHeight s <= 1.6 /\
  exists h,
    heightOf s = Some h /\
    groundYOf s <= h <= groundYOf s + 7.2 * 7.2 / 37 /\
    (onGround s = true <-> h = groundYOf s).
Proof.
  intro s.
  set (o := {| opt_camera := cam;
               opt_target :=
                 Some (Object3D.mk (loadPlayer_spawn env) Quaternion.identity);
               opt_environment := Some env;
               opt_targetHeight :=
                 Some (Rmax 0.8 (Rmin 1.6 (Vector3.y sized * 0.55)));
               opt_playerRadius :=
                 Some (Rmax (Vector3.x sized) (Vector3.z sized) * 0.28);
               opt_onJump := Some player_onJump;
               opt_onMovementChange := Some player_onMovementChange |}).
  assert (Hs : s = state_after (constructor o) inputs) by reflexivity.
  pose proof (run_same_config inputs (constructor o))
    as (He & _ & Hth & _ & _ & _ & Ej & Eg & _).
  rewrite <- Hs in He, Hth, Ej, Eg. simpl in Hth, Ej, Eg.
  assert (Hgy : groundYOf s = nullish (Environment.groundY env) 0)
    by (unfold groundYOf; rewrite He; reflexivity).
  split.
  { rewrite Hth. unfold Rmax, Rmin.
    destruct (Rle_dec 1.6 _); destruct (Rle_dec 0.8 _); lra. }
  destruct (target s) as [tgt |] eqn:Ht.
  2:{ rewrite Hs in Ht.
      apply (run_target_presence inputs (constructor o)) in Ht.
      discriminate. }
  exists (Vector3.y (Object3D.position tgt)).
  assert (Hh : heightOf s = Some (Vector3.y (Object3D.position tgt)))
    by (unfold heightOf; rewrite Ht; reflexivity).
  split; [exact Hh |].
  assert (Hlow : groundYOf s <= Vector3.y (Object3D.position tgt)).
  { rewrite Hs in Hh |- *. apply (run_above_ground inputs (constructor o));
      [| exact Hh].
    intros h0 Hh0. injection Hh0 as <-. apply Rle_refl. }
  assert (Inv : jump_energy_inv s).
  { rewrite Hs. apply (run_jump_energy o inputs [] (constructor o));
      [reflexivity |].
    intros h0 Hh0. injection Hh0 as <-. split.
    - intros _. split; [apply Rle_refl | reflexivity].
    - discriminate. }
  destruct (Inv _ Hh) as [I1 I2]. rewrite Ej, Eg in I2.
  destruct (onGround s).
  - destruct (I1 eq_refl) as [Hle _]. split; [lra |].
    split; [intros _; lra | reflexivity].
  - destruct (I2 eq_refl) as [Hlt Hen].
    set (vy := Vector3.y (velocity s)) in *.
    pose proof (Rle_0_sqr vy) as Hsq. unfold Rsqr in Hsq.
    split; [lra |]. split; [discriminate | intro; lra].
Qed.

(** * The boars that follow *)

(** A step of [m] towards a point at distance [d] leaves the distance
    [d - m]. *)
Lemma step_towards (dx dz m : R) :
  let d := sqrt (dx * dx + dz * dz) in
  0 < d -> 0 <= m <= d ->
  sqrt ((dx - dx / d * m) * (dx - dx / d * m)
        + (dz - dz / d * m) * (dz - dz / d * m))
  = d - m.
Proof.
  intros d Hd Hm.
  assert (Hdd : d * d = dx * dx + dz * dz) by (apply sqrt_sqrt; nra).
  replace ((dx - dx / d * m) * (dx - dx / d * m)
           + (dz - dz / d * m) * (dz - dz / d * m))
    with ((dx * dx + dz * dz) * ((d - m) * (d - m)) / (d * d))
    by (field; lra).
  rewrite <- Hdd.
  replace (d * d * ((d - m) * (d - m)) / (d * d)) with ((d - m) * (d - m))
    by (field; lra).
  apply sqrt_square. lra.
Qed.

Lemma npc_update_follow (cfg : NPC.Config) (ft : NPC.FollowTarget) (dt : R)
    (n : NPC.State) :
  let d := NPC.distanceToSlot cfg ft n in
  (0.1 < d -> 0 <= NPC.followSpeed cfg * dt ->
   NPC.distanceToSlot cfg ft (NPC.update cfg (Some ft) dt n)
   = d - Rmin (NPC.followSpeed cfg * dt) d) /\
  (d <= 0.1 ->
   NPC.position (NPC.update cfg (Some ft) dt n) = NPC.position n /\
   NPC.currentRotation (NPC.update cfg (Some ft) dt n)
   = NPC.currentRotation n).
Proof.
  intro d. unfold d, NPC.distanceToSlot, NPC.update.
  destruct (NPC.slot cfg ft) as [tx tz] eqn:Es. cbn [fst snd].
  set (dx := tx - Vector3.x (NPC.position n)).
  set (dz := tz - Vector3.z (NPC.position n)).
  split.
  - intros Hfar Hstep.
    assert (E : ltb 0.1 (sqrt (dx * dx + dz * dz)) = true)
      by (apply ltb_true; exact Hfar).
    rewrite E. cbn [NPC.position Vector3.x Vector3.z].
    set (m := Rmin (NPC.followSpeed cfg * dt) (sqrt (dx * dx + dz * dz))).
    assert (Hm : 0 <= m <= sqrt (dx * dx + dz * dz)).
    { unfold m, Rmin. destruct (Rle_dec _ _); lra. }
    replace (tx - (Vector3.x (NPC.position n)
                   + dx / sqrt (dx * dx + dz * dz) * m))
      with (dx - dx / sqrt (dx * dx + dz * dz) * m) by (unfold dx; ring).
    replace (tz - (Vector3.z (NPC.position n)
                   + dz / sqrt (dx * dx + dz * dz) * m))
      with (dz - dz / sqrt (dx * dx + dz * dz) * m) by (unfold dz; ring).
    apply step_towards; lra.
  - intro Hnear.
    assert (E : ltb 0.1 (sqrt (dx * dx + dz * dz)) = false)
      by (apply ltb_false; exact Hnear).
    rewrite E. split; reflexivity.
Qed.

(** X17: a following boar walks straight to its place and never past it.
    When it is further than 0.1 from its place in the formation and
    [followSpeed * dt >= 0], an update shortens the distance by exactly
    [min(followSpeed * dt, distance)], so a long frame puts it on the spot;
    within 0.1 of the place it stays where it is and keeps its heading. *)
Theorem npc_steps_towards_slot (cfg : NPC.Config) (ft : NPC.FollowTarget)
    (dt : R) (n : NPC.State) :
  0 <= NPC.followSpeed cfg * dt ->
  let d := NPC.distanceToSlot cfg ft n in
  let n' := NPC.update cfg (Some ft) dt n in
  (0.1 < d ->
   NPC.distanceToSlot cfg ft n' = d - Rmin (NPC.followSpeed cfg * dt) d /\
   (d <= NPC.followSpeed cfg * dt -> NPC.distanceToSlot cfg ft n' = 0)) /\
  (d <= 0.1 ->
   NPC.position n' = NPC.position n /\
   NPC.currentRotation n' = NPC.currentRotation n).
Proof.
  intros Hstep d n'.
  destruct (npc_update_follow cfg ft dt n) as [Hfar Hnear].
  split; [| exact Hnear].
  intro Hd. split; [apply Hfar; assumption |].
  intro Hlong. unfold n'. rewrite Hfar by assumption. fold d.
  rewrite Rmin_right by exact Hlong. ring.
Qed.

(** The theorem for a boar at the origin following a player at (3, 0, 4)
    who faces along z, with no offset, at speed 5 for a tenth of a
    second. *)
Lemma npc_steps_towards_slot_witness :
  let cfg := NPC.mkConfig 0 0 5 1.2 in
  let ft := NPC.mkFollowTarget (Vector3.mk 3 0 4) 0 in
  let n := NPC.mkState (Vector3.mk 0 0 0) 0 0 0 in
  NPC.distanceToSlot cfg ft (NPC.update cfg (Some ft) (1 / 10) n)
  = 5 - Rmin (5 * (1 / 10)) 5.
Proof.
  intros cfg ft n.
  assert (Hd : NPC.distanceToSlot cfg ft n = 5).
  { unfold NPC.distanceToSlot, NPC.slot, cfg, ft, n. cbn.
    replace ((3 + 0 * cos 0 - 0 * sin 0 - 0) * (3 + 0 * cos 0 - 0 * sin 0 - 0)
             + (4 + 0 * sin 0 + 0 * cos 0 - 0) * (4 + 0 * sin 0 + 0 * cos 0 - 0))
      with (5 * 5) by ring.
    apply sqrt_square. lra. }
  destruct (npc_steps_towards_slot cfg ft (1 / 10) n) as [H _].
  - simpl. lra.
  - cbv zeta in H. rewrite Hd in H. destruct H as [H _]; [lra |].
    exact H.
Defined.

Lemma npc_updates_S (cfg : NPC.Config) (ft : option NPC.FollowTarget)
    (dt : R) (k : nat) (n : NPC.State) :
  NPC.updates cfg ft dt (S k) n
  = NPC.update cfg ft dt (NPC.updates cfg ft dt k n).
Proof.
  revert n. induction k as [| k IH]; intro n; [reflexivity |].
  change (NPC.updates cfg ft dt (S (S k)) n)
    with (NPC.updates cfg ft dt (S k) (NPC.update cfg ft dt n)).
  rewrite IH. reflexivity.
Qed.

(** X18: a boar catches up with a player that stands still.  With
    [followSpeed * dt >= 0], after [k] updates the distance to the place in
    the formation is at most [max(0.1, d0 - k * followSpeed * dt)], where
    [d0] is the distance at the start: it comes within 0.1 of its place
    after [(d0 - 0.1) / (followSpeed * dt)] frames and stays there. *)
Theorem npc_catches_up (cfg : NPC.Config) (ft : NPC.FollowTarget) (dt : R)
    (n : NPC.State) (k : nat) :
  0 <= NPC.followSpeed cfg * dt ->
  NPC.distanceToSlot cfg ft (NPC.updates cfg (Some ft) dt k n)
  <= Rmax 0.1 (NPC.distanceToSlot cfg ft n
               - INR k * (NPC.followSpeed cfg * dt)).
Proof.
  intro Hstep. induction k as [| k IH].
  - cbn [NPC.updates]. replace (INR 0) with 0 by reflexivity.
    eapply Rle_trans; [| apply Rmax_r]. lra.
  - rewrite npc_updates_S, S_INR.
    set (m := NPC.updates cfg (Some ft) dt k n) in *.
    set (d0 := NPC.distanceToSlot cfg ft n) in *.
    set (v := NPC.followSpeed cfg * dt) in *.
    destruct (npc_update_follow cfg ft dt m) as [Hfar Hnear].
    cbv zeta in Hfar, Hnear. fold v in Hfar.
    destruct (Rle_lt_dec (NPC.distanceToSlot cfg ft m) 0.1) as [Hd | Hd].
    + destruct (Hnear Hd) as [Hpos _].
      assert (Hsame : NPC.distanceToSlot cfg ft (NPC.update cfg (Some ft) dt m)
                      = NPC.distanceToSlot cfg ft m)
        by (unfold NPC.distanceToSlot; rewrite Hpos; reflexivity).
      rewrite Hsame. eapply Rle_trans; [exact Hd | apply Rmax_l].
    + rewrite (Hfar Hd Hstep).
      pose proof (pos_INR k) as Hk.
      revert IH. unfold Rmax, Rmin.
      repeat match goal with
      | |- context [Rle_dec ?a ?b] => destruct (Rle_dec a b)
      end; intros; nra.
Qed.

(** The theorem for the same boar over ten frames of a tenth of a
    second. *)
Lemma npc_catches_up_witness :
  let cfg := NPC.mkConfig 0 0 5 1.2 in
  let ft := NPC.mkFollowTarget (Vector3.mk 3 0 4) 0 in
  let n := NPC.mkState (Vector3.mk 0 0 0) 0 0 0 in
  NPC.distanceToSlot cfg ft (NPC.updates cfg (Some ft) (1 / 10) 10 n)
  <= Rmax 0.1 (NPC.distanceToSlot cfg ft n - INR 10 * (5 * (1 / 10))).
Proof.
  intros cfg ft n.
  apply (npc_catches_up cfg ft (1 / 10) n 10). simpl. lra.
Defined.

(** X19: a boar without a follow target only sways.  Whatever the frame
    lengths, updates leave its position where it was loaded and keep its
    rotation about the vertical within 0.35 of zero; with a follow target
    the rotation stays within 0.35 of the heading [currentRotation]. *)
Theorem npc_sways_in_place (cfg : NPC.Config) (n : NPC.State)
    (dts : list R) (ft : NPC.FollowTarget) (dt : R) :
  let n' := fold_left (fun n dt => NPC.update cfg None dt n) dts n in
  NPC.position n' = NPC.position n /\
  (dts <> [] -> Rabs (NPC.rotationY n') <= 0.35) /\
  Rabs (NPC.rotationY (NPC.update cfg (Some ft) dt n)
        - NPC.currentRotation (NPC.update cfg (Some ft) dt n)) <= 0.35.
Proof.
  assert (sway : forall t, Rabs (sin t * NPC.oscillationAmount) <= 0.35).
  { intro t. unfold NPC.oscillationAmount. pose proof (SIN_bound t).
    apply Rabs_le. lra. }
  split; [| split].
  - revert n. induction dts as [| d dts IH]; intro n; [reflexivity |].
    cbn [fold_left]. rewrite IH. reflexivity.
  - intro Hne. revert n.
    induction dts as [| d dts IH]; intro n; [contradiction |].
    cbn [fold_left]. destruct dts as [| d' dts'].
    + cbn [fold_left NPC.update NPC.rotationY]. apply sway.
    + apply IH. discriminate.
  - unfold NPC.update. destruct (NPC.slot cfg ft) as [tx tz].
    destruct (ltb 0.1 _); cbn [NPC.rotationY NPC.currentRotation];
      match goal with
      | |- Rabs (?c + ?w - ?c) <= _ =>
          replace (c + w - c) with w by ring
      end; apply sway.
Qed.

(** The theorem for a boar swaying over two frames. *)
Lemma npc_sways_in_place_witness :
  let cfg := NPC.mkConfig 0 (-3) 5 1.2 in
  let n := NPC.mkState (Vector3.mk 5 0 (-3)) 0 0 0 in
  let n' :=
    fold_left (fun n dt => NPC.update cfg None dt n) [1 / 60; 1 / 60] n in
  NPC.position n' = Vector3.mk 5 0 (-3) /\ Rabs (NPC.rotationY n') <= 0.35.
Proof.
  intros cfg n n'.
  destruct (npc_sways_in_place cfg n [1 / 60; 1 / 60]
              (NPC.mkFollowTarget (Vector3.mk 0 0 0) 0) 0) as (H1 & H2 & _).
  split; [exact H1 | apply H2; discriminate].
Defined.

(** * The game loop *)

(** X20: the frame clamp of [tick] is what makes a jump take off.  For a
    player standing at ground height with a jump requested: a tick, however
    long the clock says the frame was, ends with the player in the air,
    rising at [7.2 - 18.5 * min(0.05, delta)], which is 6.275 or more, and
    has called [onJump].  An [update] with a frame of [7.2 / 18.5] seconds
    (about 0.39) or more calls [onJump] too but ends on the ground with no
    vertical velocity: the jump is swallowed. *)
Theorem tick_clamp_lets_jumps_take_off (o : Options) (s : Controller)
    (g : Game) (delta : R) (tgt : Object3D.t) :
  Reachable o s -> game_player g = Some s ->
  target s = Some tgt ->
  Vector3.y (Object3D.position tgt) = groundYOf s ->
  onGround s = true -> _jumpRequested s = true ->
  0 < delta ->
  (exists s',
     game_player (fst (tick delta g)) = Some s' /\
     onGround s' = false /\
     Vector3.y (velocity s') = 7.2 - 18.5 * Rmin 0.05 delta /\
     6.275 <= Vector3.y (velocity s') /\
     snd (tick delta g)
     = match onJump s with Some f => f tt | None => [] end) /\
  (forall dt,
     7.2 / 18.5 <= dt ->
     onGround (fst (update dt s)) = true /\
     Vector3.y (velocity (fst (update dt s))) = 0 /\
     snd (update dt s)
     = match onJump s with Some f => f tt | None => [] end).
Proof.
  intros Hreach Hg Ht Hy Hground Hreq Hdelta.
  pose proof (reachable_config o s Hreach)
    as (_ & _ & _ & _ & _ & _ & Ej & Eg & _).
  simpl in Ej, Eg.
  assert (frame : forall dt,
            let landed :=
              leb (groundYOf s + (7.2 - 18.5 * dt) * dt) (groundYOf s) in
            onGround (fst (update dt s)) = landed /\
            Vector3.y (velocity (fst (update dt s)))
            = (if landed then 0 else 7.2 - 18.5 * dt) /\
            snd (update dt s)
            = match onJump s with Some f => f tt | None => [] end).
  { intro dt.
    destruct (update_vertical dt s tgt Ht) as (_ & H2 & H3 & _ & H5).
    rewrite Hground, Hreq, Ej, Eg, Hy in *. cbn [andb negb] in *.
    cbv zeta. rewrite H2, H3, H5.
    destruct (leb _ _); repeat split; reflexivity. }
  split.
  - unfold tick. rewrite Hg. cbn [fst snd game_player].
    set (dt := Rmin 0.05 delta).
    assert (Hdt : 0 < dt <= 0.05).
    { unfold dt, Rmin. destruct (Rle_dec 0.05 delta); lra. }
    destruct (frame dt) as (F1 & F2 & F3). cbv zeta in F1, F2.
    assert (E : leb (groundYOf s + (7.2 - 18.5 * dt) * dt) (groundYOf s)
                = false) by (apply leb_false; nra).
    rewrite E in F1, F2.
    exists (fst (update dt s)). repeat split; auto. rewrite F2. lra.
  - intros dt Hlong. destruct (frame dt) as (F1 & F2 & F3).
    cbv zeta in F1, F2.
    assert (Hcut : 7.2 / 18.5 * 18.5 = 7.2) by (field; lra).
    assert (E : leb (groundYOf s + (7.2 - 18.5 * dt) * dt) (groundYOf s)
                = true) by (apply leb_true; nra).
    rewrite E in F1, F2. repeat split; assumption.
Qed.

(** The theorem for the player of [loadPlayer] after a press of Space, with
    a clock that reports a hitch of half a second. *)
Lemma tick_clamp_lets_jumps_take_off_witness :
  let o := loadPlayer_options (Vector3.mk 0 0 0) (field_environment []) in
  let s :=
    state_after (constructor o) [KeyDown (mkKeyboardEvent "Space" false)] in
  let g :=
    mkGame (createEnvironment (fun _ => 0) None (Some 0%nat)) (Some s) [] in
  exists s',
    game_player (fst (tick (1 / 2) g)) = Some s' /\
    onGround s' = false /\
    Vector3.y (velocity s') = 7.2 - 18.5 * Rmin 0.05 (1 / 2).
Proof.
  intros o s g.
  destruct (tick_clamp_lets_jumps_take_off o s g (1 / 2)
              (Object3D.mk (Vector3.mk 0 0 0) Quaternion.identity))
    as [(s' & H1 & H2 & H3 & _) _]; try reflexivity.
  - eexists. reflexivity.
  - lra.
  - exists s'. repeat split; assumption.
Defined.

(** * Listeners *)




(** * A controller without an environment *)


